(** * EchoCast: the channel registry and broadcast core of [server.js]

    A shallow embedding of the three handlers of [server.js] that touch the
    in-memory registry [channels] (a [Map<channel, Set<ws>>]):

    - [wss.on('connection', ...)]       -> [wss_on_connection]  (subscribe)
    - the [ws.on('close', ...)] listener -> [ws_on_close]        (unsubscribe)
    - [app.post('/send/:channel', ...)] -> [post_send]          (publish)

    The handlers are written in a small state monad over [World], the part of
    the process state they read and write.  Node runs every handler to
    completion on one thread, so a handler is one function on [World]. *)

From stdpp Require Import gmap strings list fin_maps.
From Stdlib Require Import ZArith Lia Ascii.

Set Warnings "-register-all".

Open Scope string_scope.
Open Scope list_scope.

(** ** JavaScript values *)

(** The values a parsed JSON body can hold, plus [undefined] for a missing
    property.  Numbers are integers here; no handler does arithmetic on them. *)
Inductive jsval : Type :=
  | JUndefined
  | JNull
  | JBool (b : bool)
  | JNum (n : Z)
  | JStr (s : string)
  | JArr (items : list jsval)
  | JObj (fields : list (string * jsval)).

(** [!!v]: what an [if (!v)] test looks at. *)
Definition truthy (v : jsval) : bool :=
  match v with
  | JUndefined | JNull => false
  | JBool b => b
  | JNum n => negb (Z.eqb n 0)
  | JStr s => negb (String.eqb s "")
  | JArr _ | JObj _ => true
  end.

(** [obj[k]] on an object literal, [None] for a missing key. *)
Fixpoint get_field (k : string) (fields : list (string * jsval)) : option jsval :=
  match fields with
  | [] => None
  | (k', v) :: rest => if String.eqb k k' then Some v else get_field k rest
  end.

(** [s.substring(n)]. *)
Definition substring_from (n : nat) (s : string) : string :=
  String.substring n (String.length s - n) s.

(** ** Sockets *)

(** A [ws] object is known by its identity only. *)
Abbreviation ws := nat.

(** [WebSocket.CONNECTING], [OPEN], [CLOSING], [CLOSED] (0, 1, 2, 3). *)
Inductive ReadyState : Type := CONNECTING | OPEN | CLOSING | CLOSED.

#[global] Instance ReadyState_eq_dec : EqDecision ReadyState.
Proof. solve_decision. Defined.

(** ** [Set<ws>]

    A JavaScript [Set] keeps its elements in insertion order and holds each
    at most once; [forEach] visits them in that order. *)
Definition Set_new : list ws := [].

Definition Set_has (x : ws) (s : list ws) : bool := bool_decide (x ∈ s).

Definition Set_add (x : ws) (s : list ws) : list ws :=
  if Set_has x s then s else s ++ [x].

Definition Set_delete (x : ws) (s : list ws) : list ws :=
  filter (λ y, y ≠ x) s.

Definition Set_size (s : list ws) : nat := length s.

(** ** The world of the handlers *)

(** What a handler does to the outside: a frame handed to a socket, or a
    socket closed by the server.  [Send c v] stands for
    [c.send(JSON.stringify(v))]. *)
Inductive effect : Type :=
  | Send (client : ws) (data : jsval)
  | WsClose (sock : ws) (code : Z) (reason : string).

Record World : Type := mkWorld {
  (** [const channels = new Map()] *)
  channels : gmap string (list ws);
  (** [client.readyState], owned by the transport *)
  readyState : ws -> ReadyState;
  (** the ['close'] listeners registered so far: socket and captured channel *)
  listeners : list (ws * string);
  (** the calls made on sockets, oldest first *)
  trace : list effect
}.

(** The HTTP answer: [res.status(code).json(body)]. *)
Record response : Type := mkResponse {
  status : Z;
  body : list (string * jsval)
}.

(** ** State monad *)

Definition M (A : Type) : Type := World -> A * World.

Definition ret {A} (a : A) : M A := fun w => (a, w).

Definition bind {A B} (m : M A) (k : A -> M B) : M B :=
  fun w => let (a, w') := m w in k a w'.

Declare Scope js_scope.
Delimit Scope js_scope with js.
Notation "x <- c1 ;; c2" := (bind c1 (fun x => c2))
  (at level 100, c1 at next level, right associativity) : js_scope.
Notation "c1 ;;; c2" := (bind c1 (fun _ => c2))
  (at level 100, right associativity) : js_scope.
Open Scope js_scope.

Definition run {A} (m : M A) (w : World) : World := snd (m w).
Definition result {A} (m : M A) (w : World) : A := fst (m w).

(** [channels.has(c)] *)
Definition channels_has (c : string) : M bool :=
  fun w => (bool_decide (is_Some (channels w !! c)), w).

(** [channels.get(c)], [None] for [undefined] *)
Definition channels_get (c : string) : M (option (list ws)) :=
  fun w => (channels w !! c, w).

(** [channels.set(c, s)].  A [Set] object is reachable only through its entry
    of [channels], so a mutation of the object through a reference is the
    same write under the entry's key. *)
Definition channels_set (c : string) (s : list ws) : M unit :=
  fun w => (tt, mkWorld (<[c := s]> (channels w)) (readyState w) (listeners w) (trace w)).

(** [channels.delete(c)] *)
Definition channels_delete (c : string) : M unit :=
  fun w => (tt, mkWorld (delete c (channels w)) (readyState w) (listeners w) (trace w)).

(** [client.readyState] *)
Definition get_readyState (client : ws) : M ReadyState :=
  fun w => (readyState w client, w).

Definition emit (e : effect) : M unit :=
  fun w => (tt, mkWorld (channels w) (readyState w) (listeners w) (trace w ++ [e])).

(** [client.send(JSON.stringify(v))] *)
Definition ws_send (client : ws) (v : jsval) : M unit := emit (Send client v).

(** [sock.close(code, reason)] *)
Definition ws_close (sock : ws) (code : Z) (reason : string) : M unit :=
  emit (WsClose sock code reason).

(** [sock.on('close', () => { ... channel ... })] *)
Definition ws_on_close_register (sock : ws) (channel : string) : M unit :=
  fun w => (tt, mkWorld (channels w) (readyState w) (listeners w ++ [(sock, channel)]) (trace w)).

(** [s.forEach(f)] *)
Fixpoint forEach {A} (s : list A) (f : A -> M unit) : M unit :=
  match s with
  | [] => ret tt
  | x :: rest => f x ;;; forEach rest f
  end.

(** ** The handlers of [server.js] *)

(** The object [{ channel, message }] of line 47. *)
Definition envelope (channel : string) (message : jsval) : jsval :=
  JObj [("channel", JStr channel); ("message", message)].

(** [app.post('/send/:channel', ...)], lines 32-52, once the bearer token has
    been accepted: [channel] is [req.params.channel], [message] is
    [req.body.message].  [channels.get] runs after [channels.has] said yes,
    so it finds a set; the [default] is never taken. *)
Definition post_send (channel : string) (message : jsval) : M response :=
  if negb (truthy message) then
    ret (mkResponse 400%Z [("error", JStr "Missing message in body")])
  else
    has <- channels_has channel ;;
    if negb has then
      ret (mkResponse 200%Z [("status", JStr "No subscribers, but message accepted")])
    else
      clients <- channels_get channel ;;
      forEach (default Set_new clients) (fun client =>
        rs <- get_readyState client ;;
        if decide (rs = OPEN) then ws_send client (envelope channel message)
        else ret tt) ;;;
      ret (mkResponse 200%Z [("status", JStr "Message sent")]).

(** The listener of lines 67-75, with the [channel] and [ws] it captured. *)
Definition ws_on_close (channel : string) (sock : ws) : M unit :=
  clients <- channels_get channel ;;
  match clients with
  | Some clients =>
      let clients := Set_delete sock clients in
      channels_set channel clients ;;;
      if bool_decide (Set_size clients = 0%nat) then channels_delete channel
      else ret tt
  | None => ret tt
  end.

(** [wss.on('connection', (ws, req) => ...)], lines 55-76; [url] is
    [req.url]. *)
Definition wss_on_connection (sock : ws) (url : string) : M unit :=
  let channel := substring_from 1 url in
  if String.eqb channel "" then
    ws_close sock 1008%Z "Channel required in URL"
  else
    has <- channels_has channel ;;
    (if negb has then channels_set channel Set_new else ret tt) ;;;
    clients <- channels_get channel ;;
    channels_set channel (Set_add sock (default Set_new clients)) ;;;
    ws_on_close_register sock channel.

(** ** The vocabulary of the registry *)

(** [subscribe(C, h)]: socket [h] connects with request target [/C]. *)
Definition subscribe (C : string) (h : ws) : M unit :=
  wss_on_connection h ("/" +:+ C).

(** [unsubscribe(C, h)]: the close listener of [h], which captured [C]. *)
Definition unsubscribe (C : string) (h : ws) : M unit := ws_on_close C h.

(** [publish(C, m)]: an accepted [POST /send/C] with body [{ message: m }]. *)
Definition publish (C : string) (m : jsval) : M response := post_send C m.

(** The subscriber set of [C], empty when [C] has no entry. *)
Definition handles (w : World) (C : string) : list ws :=
  default [] (channels w !! C).

(** What [m] adds to the trace when run from [w]. *)
Definition sent_by {A} (m : M A) (w : World) : list effect :=
  drop (length (trace w)) (trace (run m w)).

(** The frames of a trace that went to socket [h]. *)
Definition is_send_to (h : ws) (e : effect) : bool :=
  match e with
  | Send c _ => bool_decide (c = h)
  | WsClose _ _ _ => false
  end.

Definition deliveries_to (h : ws) (es : list effect) : nat :=
  length (List.filter (is_send_to h) es).

(** The frames a broadcast of [m] on [C] hands out: one per socket of [s]
    that is [OPEN] in [w], in the order of [s]. *)
Definition broadcast (w : World) (C : string) (m : jsval) (s : list ws) : list effect :=
  (λ h, Send h (envelope C m)) <$> filter (λ h, readyState w h = OPEN) s.

(** A response that tells its reader a delivery count [n]: some property of
    the body is the number [n]. *)
Definition reports_count (r : response) (n : nat) : Prop :=
  ∃ k, get_field k (body r) = Some (JNum (Z.of_nat n)).

(** A channel has an entry exactly when its subscriber set is not empty. *)
Definition registry_inv (w : World) : Prop :=
  ∀ C, is_Some (channels w !! C) ↔ handles w C ≠ [].

(** Every stored list is a set: no socket twice. *)
Definition sets_wf (w : World) : Prop :=
  ∀ C s, channels w !! C = Some s → NoDup s.

(** Every stored set satisfies [good]. *)
Definition all_sets (good : list ws → Prop) (w : World) : Prop :=
  ∀ C s, channels w !! C = Some s → good s.

(** ** The event loop *)

Inductive event : Type :=
  | Connection (sock : ws) (url : string)
  | Post (channel : string) (message : jsval)
  | SocketState (sock : ws) (rs : ReadyState)
  | CloseEvent (sock : ws).

(** The transport moves a socket to another ready state. *)
Definition set_readyState (sock : ws) (rs : ReadyState) : M unit :=
  fun w => (tt, mkWorld (channels w)
                  (fun x => if decide (x = sock) then rs else readyState w x)
                  (listeners w) (trace w)).

(** ['close'] is emitted on [sock]: the socket is [CLOSED] and each of its
    listeners runs. *)
Definition emit_close (sock : ws) : M unit :=
  set_readyState sock CLOSED ;;;
  fun w => forEach (filter (λ p, p.1 = sock) (listeners w))
                   (fun p => ws_on_close p.2 sock) w.

Definition handle (e : event) : M unit :=
  match e with
  | Connection sock url => wss_on_connection sock url
  | Post channel message => post_send channel message ;;; ret tt
  | SocketState sock rs => set_readyState sock rs
  | CloseEvent sock => emit_close sock
  end.

Fixpoint exec (es : list event) : M unit :=
  match es with
  | [] => ret tt
  | e :: rest => handle e ;;; exec rest
  end.

(** [channels] is empty when the process starts. *)
Definition initial : World := mkWorld ∅ (fun _ => CONNECTING) [] [].

Definition reachable (w : World) : Prop := ∃ es, run (exec es) initial = w.

(** ** Bearer authentication and the route *)

(** [s.includes(c)] for one character [c]. *)
Fixpoint includes_char (c : Ascii.ascii) (s : string) : bool :=
  match s with
  | EmptyString => false
  | String a rest => Ascii.eqb a c || includes_char c rest
  end.

(** [s.split(sep)] for a one-character separator: the pieces between the
    separators, empty pieces kept, so [''.split(' ')] is [['']]. *)
Fixpoint split_on (sep : Ascii.ascii) (s : string) : list string :=
  match s with
  | EmptyString => [EmptyString]
  | String a rest =>
      if Ascii.eqb a sep then EmptyString :: split_on sep rest
      else match split_on sep rest with
           | piece :: pieces => String a piece :: pieces
           | [] => [String a EmptyString]
           end
  end.

(** [process.env.BEARER_TOKEN || 'default-secret'], line 10; [env] is the
    variable of the environment, [None] when it is not set. *)
Definition BEARER_TOKEN (env : option string) : string :=
  match env with
  | Some s => if String.eqb s "" then "default-secret" else s
  | None => "default-secret"
  end.

(** What a middleware does: answer itself, or call [next()]. *)
Inductive middleware_result : Type :=
  | Next
  | Respond (r : response).

(** [authMiddleware], lines 16-26; [secret] is the constant [BEARER_TOKEN]
    and [authorization] is [req.headers.authorization], [None] for a request
    without the header. *)
Definition authMiddleware (secret : string) (authorization : option string)
  : middleware_result :=
  match authorization with
  | None =>
      Respond (mkResponse 401%Z
                 [("error", JStr "Unauthorized: Missing or invalid Bearer token")])
  | Some authHeader =>
      if String.eqb authHeader "" || negb (String.prefix "Bearer " authHeader) then
        Respond (mkResponse 401%Z
                   [("error", JStr "Unauthorized: Missing or invalid Bearer token")])
      else
        let token := split_on " "%char authHeader !! 1%nat in
        if negb (bool_decide (token = Some secret)) then
          Respond (mkResponse 403%Z [("error", JStr "Forbidden: Invalid token")])
        else Next
  end.

(** [const { message } = req.body], line 34; [body] holds the properties of
    the object [express.json()] stored in [req.body]. *)
Definition body_message (body : list (string * jsval)) : jsval :=
  default JUndefined (get_field "message" body).

(** The route [app.post('/send/:channel', express.json(), authMiddleware,
    handler)], lines 32-52, for a request whose body [express.json()] has
    parsed: the handler runs when the middleware calls [next()]. *)
Definition send_route (secret : string) (authorization : option string)
    (channel : string) (body : list (string * jsval)) : M response :=
  match authMiddleware secret authorization with
  | Respond r => ret r
  | Next => post_send channel (body_message body)
  end.

(** ** The server of [tests/server.test.js]

    The test file builds a server of its own in [beforeAll]; these are its
    handlers. *)

(** Its [authMiddleware], lines 16-22, with [BEARER_TOKEN = 'test-secret']. *)
Definition mock_authMiddleware (authorization : option string) : middleware_result :=
  match authorization with
  | None => Respond (mkResponse 401%Z [("error", JStr "Unauthorized")])
  | Some authHeader =>
      if String.eqb authHeader "" || negb (String.eqb authHeader "Bearer test-secret") then
        Respond (mkResponse 401%Z [("error", JStr "Unauthorized")])
      else Next
  end.

(** Its [app.post('/send/:channel', ...)] handler, lines 25-33. *)
Definition mock_post_send (channel : string) (message : jsval) : M response :=
  if negb (truthy message) then
    ret (mkResponse 400%Z [("error", JStr "Missing message")])
  else
    has <- channels_has channel ;;
    (if has then
       clients <- channels_get channel ;;
       forEach (default Set_new clients) (fun client =>
         ws_send client (envelope channel message))
     else ret tt) ;;;
    ret (mkResponse 200%Z [("status", JStr "Message sent")]).

(** Its close listener, lines 40-43.  [channels.get(channel)] is used without
    a test: [None] stands for the [TypeError] thrown on [undefined]. *)
Definition mock_ws_on_close (channel : string) (sock : ws) (w : World) : option World :=
  match channels w !! channel with
  | None => None
  | Some clients =>
      let w1 := run (channels_set channel (Set_delete sock clients)) w in
      match channels w1 !! channel with
      | None => None
      | Some clients1 =>
          if bool_decide (Set_size clients1 = 0%nat)
          then Some (run (channels_delete channel) w1)
          else Some w1
      end
  end.

(** ** Sample worlds *)

(** Sockets 1 and 2 on [room1], both open. *)
Definition w_two_open : World :=
  mkWorld {[ "room1" := [1%nat; 2%nat] ]} (fun _ => OPEN)
          [(1%nat, "room1"); (2%nat, "room1")] [].

(** Sockets 1 and 2 on [room1]; socket 1 is no longer open. *)
Definition w_one_dead : World :=
  mkWorld {[ "room1" := [1%nat; 2%nat] ]}
          (fun x => if decide (x = 1%nat) then CLOSED else OPEN)
          [(1%nat, "room1"); (2%nat, "room1")] [].

(** Socket 1 alone on [room1]. *)
Definition w_one : World :=
  mkWorld {[ "room1" := [1%nat] ]} (fun _ => OPEN) [(1%nat, "room1")] [].

(** ** Basic facts *)

(** A session: socket 1 joins [room1] and gets [hello];
    once it has closed, [hello2] goes to nobody and [room1] has no entry. *)
Example scenario_room1 :
  let w := run (exec [Connection 1%nat "/room1"; SocketState 1%nat OPEN;
                      Post "room1" (JStr "hello"); CloseEvent 1%nat;
                      Post "room1" (JStr "hello2")]) initial in
  trace w = [Send 1%nat (envelope "room1" (JStr "hello"))]
  ∧ channels w = ∅
  ∧ listeners w = [(1%nat, "room1")].
Proof. vm_compute. repeat split. Qed.

(** A request target without channel: the socket is closed, nothing is stored. *)
Example scenario_no_channel :
  run (exec [Connection 1%nat "/"]) initial
  = mkWorld ∅ (fun _ => CONNECTING) []
            [WsClose 1%nat 1008%Z "Channel required in URL"].
Proof. reflexivity. Qed.

Lemma substring_from_1_slash (C : string) : substring_from 1 ("/" +:+ C) = C.
Proof.
  unfold substring_from. simpl. change ("" +:+ C) with C. rewrite Nat.sub_0_r.
  induction C as [|a C IH]; simpl; [done|]. by rewrite IH.
Qed.

Lemma eqb_empty_false (C : string) : C ≠ "" → String.eqb C "" = false.
Proof. intros H. by apply String.eqb_neq. Qed.

Lemma Set_add_elem (x : ws) (s : list ws) : x ∈ s → Set_add x s = s.
Proof. intros H. unfold Set_add, Set_has. by rewrite bool_decide_eq_true_2. Qed.

Lemma Set_add_fresh (x : ws) (s : list ws) : x ∉ s → Set_add x s = s ++ [x].
Proof. intros H. unfold Set_add, Set_has. by rewrite bool_decide_eq_false_2. Qed.

Lemma Set_add_has (x : ws) (s : list ws) : x ∈ Set_add x s.
Proof.
  destruct (decide (x ∈ s)) as [H|H].
  - by rewrite Set_add_elem.
  - rewrite Set_add_fresh by done. set_solver.
Qed.

Lemma Set_add_NoDup (x : ws) (s : list ws) : NoDup s → NoDup (Set_add x s).
Proof.
  intros H. destruct (decide (x ∈ s)) as [Hx|Hx].
  - by rewrite Set_add_elem.
  - rewrite Set_add_fresh by done. apply NoDup_app. repeat split; [done| |apply NoDup_singleton].
    intros y Hy Hy'. apply list_elem_of_singleton in Hy'. by subst.
Qed.

Lemma Set_add_idem (x : ws) (s : list ws) : Set_add x (Set_add x s) = Set_add x s.
Proof. apply Set_add_elem, Set_add_has. Qed.

Lemma Set_delete_absent (x : ws) (s : list ws) : x ∉ s → Set_delete x s = s.
Proof.
  unfold Set_delete. induction s as [|y s IH]; intros H; [done|].
  apply not_elem_of_cons in H as [Hne Hs].
  rewrite filter_cons_True by congruence. by rewrite IH.
Qed.

Lemma Set_delete_elem (x y : ws) (s : list ws) : y ∈ Set_delete x s ↔ y ∈ s ∧ y ≠ x.
Proof. unfold Set_delete. rewrite list_elem_of_filter. tauto. Qed.

Lemma Set_delete_NoDup (x : ws) (s : list ws) : NoDup s → NoDup (Set_delete x s).
Proof. apply NoDup_filter. Qed.

Lemma Set_delete_only (x : ws) (s : list ws) :
  (∀ y, y ∈ s → y = x) → Set_delete x s = [].
Proof.
  intros H. destruct (Set_delete x s) as [|y t] eqn:E; [done|].
  assert (Hy : y ∈ Set_delete x s) by (rewrite E; left).
  apply Set_delete_elem in Hy as [Hy Hne]. by apply H in Hy.
Qed.

(** ** What each handler computes *)

Section Publish.
Variables (C : string) (m : jsval).

(** The loop of lines 45-49 appends one frame per open socket and touches
    nothing else. *)
Lemma forEach_send (s : list ws) (w : World) :
  forEach s (fun client =>
    rs <- get_readyState client ;;
    if decide (rs = OPEN) then ws_send client (envelope C m) else ret tt) w
  = (tt, mkWorld (channels w) (readyState w) (listeners w)
                 (trace w ++ broadcast w C m s)).
Proof.
  revert w. induction s as [|h s IH]; intros w.
  - unfold broadcast. simpl. unfold ret. rewrite app_nil_r. by destruct w.
  - cbn [forEach]. unfold bind at 1. unfold bind at 1. unfold get_readyState at 1.
    unfold broadcast. destruct (decide (readyState w h = OPEN)) as [Hh|Hh].
    + unfold ws_send, emit. rewrite IH. cbn [channels readyState listeners trace].
      rewrite filter_cons_True by done. unfold broadcast.
      rewrite fmap_cons. by rewrite <- app_assoc.
    + unfold ret at 1. rewrite IH. by rewrite filter_cons_False by done.
Qed.

Lemma post_send_falsy (w : World) :
  truthy m = false →
  post_send C m w = (mkResponse 400%Z [("error", JStr "Missing message in body")], w).
Proof. intros H. unfold post_send. by rewrite H. Qed.

Lemma post_send_absent (w : World) :
  truthy m = true → channels w !! C = None →
  post_send C m w
  = (mkResponse 200%Z [("status", JStr "No subscribers, but message accepted")], w).
Proof.
  intros H Hc. unfold post_send. rewrite H. cbn [negb].
  unfold bind, channels_has. rewrite Hc.
  rewrite bool_decide_eq_false_2; [done|]. by intros [? ?].
Qed.

Lemma post_send_present (w : World) (s : list ws) :
  truthy m = true → channels w !! C = Some s →
  post_send C m w
  = (mkResponse 200%Z [("status", JStr "Message sent")],
     mkWorld (channels w) (readyState w) (listeners w)
             (trace w ++ broadcast w C m s)).
Proof.
  intros H Hc. unfold post_send. rewrite H. cbn [negb].
  unfold bind at 1. unfold channels_has.
  rewrite bool_decide_eq_true_2 by (rewrite Hc; eauto). cbn [negb].
  unfold bind at 1. unfold channels_get. rewrite Hc. cbn [default].
  unfold bind at 1. by rewrite forEach_send.
Qed.

Lemma sent_by_post_send_present (w : World) (s : list ws) :
  truthy m = true → channels w !! C = Some s →
  sent_by (post_send C m) w = broadcast w C m s.
Proof.
  intros H Hc. unfold sent_by, run. rewrite (post_send_present w s H Hc).
  cbn [snd trace]. by rewrite drop_app_length.
Qed.

(** The registry, the sockets and the listeners are the same after the
    handler, whatever branch it took. *)
Lemma post_send_frame (w : World) :
  channels (run (post_send C m) w) = channels w
  ∧ readyState (run (post_send C m) w) = readyState w
  ∧ listeners (run (post_send C m) w) = listeners w.
Proof.
  unfold run. destruct (truthy m) eqn:Ht.
  - destruct (channels w !! C) as [s|] eqn:Hc.
    + by rewrite (post_send_present w s Ht Hc).
    + by rewrite (post_send_absent w Ht Hc).
  - by rewrite (post_send_falsy w Ht).
Qed.
End Publish.

Section Close.
Variables (C : string) (h : ws).

Lemma ws_on_close_absent (w : World) :
  channels w !! C = None → ws_on_close C h w = (tt, w).
Proof. intros Hc. unfold ws_on_close, bind, channels_get. by rewrite Hc. Qed.

(** The last socket leaves: the entry goes with it. *)
Lemma ws_on_close_prune (w : World) (s : list ws) :
  channels w !! C = Some s → Set_delete h s = [] →
  ws_on_close C h w
  = (tt, mkWorld (delete C (channels w)) (readyState w) (listeners w) (trace w)).
Proof.
  intros Hc Hd. unfold ws_on_close, bind, channels_get. rewrite Hc.
  unfold channels_set, channels_delete. rewrite Hd. cbn [fst snd Set_size length].
  rewrite bool_decide_eq_true_2 by done. cbn.
  by rewrite delete_insert_eq.
Qed.

(** Other sockets stay: the entry keeps them. *)
Lemma ws_on_close_keep (w : World) (s : list ws) :
  channels w !! C = Some s → Set_delete h s ≠ [] →
  ws_on_close C h w
  = (tt, mkWorld (<[C := Set_delete h s]> (channels w)) (readyState w)
                 (listeners w) (trace w)).
Proof.
  intros Hc Hd. unfold ws_on_close, bind, channels_get. rewrite Hc.
  unfold channels_set. cbn [fst snd]. unfold Set_size.
  rewrite bool_decide_eq_false_2; [done|].
  intros Hl. by apply nil_length_inv in Hl.
Qed.
End Close.

Section Connection.
Variables (sock : ws) (url : string).

Lemma wss_on_connection_reject (w : World) :
  substring_from 1 url = "" →
  wss_on_connection sock url w
  = (tt, mkWorld (channels w) (readyState w) (listeners w)
                 (trace w ++ [WsClose sock 1008%Z "Channel required in URL"])).
Proof. intros H. unfold wss_on_connection. by rewrite H. Qed.

Lemma wss_on_connection_admit (w : World) :
  substring_from 1 url ≠ "" →
  wss_on_connection sock url w
  = (tt, mkWorld (<[substring_from 1 url :=
                     Set_add sock (handles w (substring_from 1 url))]> (channels w))
                 (readyState w)
                 (listeners w ++ [(sock, substring_from 1 url)])
                 (trace w)).
Proof.
  intros H. unfold wss_on_connection. rewrite eqb_empty_false by done.
  set (c := substring_from 1 url). unfold handles.
  unfold bind, channels_has, channels_get, channels_set, ws_on_close_register, ret.
  destruct (channels w !! c) as [s|] eqn:Hc.
  - rewrite bool_decide_eq_true_2 by eauto. cbn. by rewrite Hc.
  - rewrite bool_decide_eq_false_2 by (by intros [? ?]). cbn.
    rewrite lookup_insert_eq. cbn. by rewrite insert_insert_eq.
Qed.
End Connection.

(** ** The two invariants of the registry *)

Lemma registry_inv_alt (w : World) :
  registry_inv w ↔ ∀ C, channels w !! C ≠ Some [].
Proof.
  unfold registry_inv, handles. split.
  - intros H C Hc. destruct (H C) as [H1 _].
    rewrite Hc in H1. cbn in H1. apply H1; eauto.
  - intros H C. specialize (H C). destruct (channels w !! C) as [s|]; cbn.
    + split; [congruence | eauto].
    + split; [by intros [? ?] | done].
Qed.

Section Preservation.
(** A property of the registry alone, kept by every write the handlers
    make: storing a set that has a member, and dropping an entry. *)
Variable good : list ws → Prop.

Local Abbreviation all_good := (all_sets good).

Hypothesis good_add : ∀ x s, (s = [] ∨ good s) → good (Set_add x s).
Hypothesis good_delete : ∀ x s, good s → Set_delete x s ≠ [] → good (Set_delete x s).

Lemma all_good_post_send C m w : all_good w → all_good (run (post_send C m) w).
Proof.
  intros H C' s. destruct (post_send_frame C m w) as [Hc _]. rewrite Hc. apply H.
Qed.

Lemma all_good_ws_on_close C h w : all_good w → all_good (run (ws_on_close C h) w).
Proof.
  intros H. unfold run. destruct (channels w !! C) as [s|] eqn:Hc.
  - destruct (decide (Set_delete h s = [])) as [Hd|Hd].
    + rewrite (ws_on_close_prune C h w s Hc Hd). intros C' s'. cbn.
      rewrite lookup_delete. case_decide; [done | apply H].
    + rewrite (ws_on_close_keep C h w s Hc Hd). intros C' s'. cbn.
      rewrite lookup_insert. case_decide; [|apply H].
      intros [= <-]. apply good_delete; [by apply (H C) | done].
  - by rewrite (ws_on_close_absent C h w Hc).
Qed.

Lemma all_good_wss_on_connection sock url w :
  all_good w → all_good (run (wss_on_connection sock url) w).
Proof.
  intros H. unfold run. destruct (decide (substring_from 1 url = "")) as [Hu|Hu].
  - by rewrite (wss_on_connection_reject sock url w Hu).
  - rewrite (wss_on_connection_admit sock url w Hu). intros C' s'. cbn.
    rewrite lookup_insert. case_decide; [|apply H].
    intros [= <-]. apply good_add. unfold handles.
    destruct (channels w !! substring_from 1 url) as [s|] eqn:Hc; cbn; [|by left].
    right. by apply (H _ _ Hc).
Qed.

Lemma all_good_forEach_close sock (ls : list (ws * string)) w :
  all_good w → all_good (run (forEach ls (fun p => ws_on_close p.2 sock)) w).
Proof.
  revert w. induction ls as [|p ls IH]; intros w H; [done|].
  cbn [forEach]. unfold run, bind.
  pose proof (all_good_ws_on_close p.2 sock w H) as H1. unfold run in H1.
  destruct (ws_on_close p.2 sock w) as [[] w1]. by apply IH.
Qed.

Lemma all_good_handle e w : all_good w → all_good (run (handle e) w).
Proof.
  intros H. destruct e as [sock url|C m|sock rs|sock]; cbn [handle].
  - by apply all_good_wss_on_connection.
  - pose proof (all_good_post_send C m w H) as H1. unfold run, bind in *.
    by destruct (post_send C m w).
  - done.
  - unfold emit_close, run, bind, set_readyState. by apply all_good_forEach_close.
Qed.

Lemma all_good_exec es w : all_good w → all_good (run (exec es) w).
Proof.
  revert w. induction es as [|e es IH]; intros w H; [done|].
  cbn [exec]. unfold run, bind.
  pose proof (all_good_handle e w H) as H1. unfold run in H1.
  destruct (handle e w) as [[] w1]. by apply IH.
Qed.

Lemma all_good_reachable w : reachable w → all_good w.
Proof. intros [es <-]. apply all_good_exec. intros C s. by cbn. Qed.
End Preservation.

Lemma registry_inv_all_good (w : World) :
  registry_inv w ↔ all_sets (λ s, s ≠ []) w.
Proof.
  rewrite registry_inv_alt. unfold all_sets. split.
  - intros H C s Hc ->. by apply (H C).
  - intros H C Hc. by apply (H C [] Hc).
Qed.

Lemma Set_add_nonempty (x : ws) (s : list ws) : Set_add x s ≠ [].
Proof. intros H. pose proof (Set_add_has x s) as Hx. rewrite H in Hx. by apply not_elem_of_nil in Hx. Qed.

Lemma registry_inv_post_send C m w : registry_inv w → registry_inv (run (post_send C m) w).
Proof. rewrite !registry_inv_all_good. apply all_good_post_send. Qed.

Lemma registry_inv_ws_on_close C h w : registry_inv w → registry_inv (run (ws_on_close C h) w).
Proof. rewrite !registry_inv_all_good. apply all_good_ws_on_close. auto. Qed.

Lemma registry_inv_wss_on_connection sock url w :
  registry_inv w → registry_inv (run (wss_on_connection sock url) w).
Proof.
  rewrite !registry_inv_all_good. apply all_good_wss_on_connection.
  intros x s _. apply Set_add_nonempty.
Qed.

Lemma sets_wf_wss_on_connection sock url w :
  sets_wf w → sets_wf (run (wss_on_connection sock url) w).
Proof.
  apply (all_good_wss_on_connection (λ s, NoDup s)).
  intros x s [->|H]; apply Set_add_NoDup; [apply NoDup_nil_2 | done].
Qed.

(** Every world the server can be in satisfies both invariants. *)
Lemma reachable_registry_inv w : reachable w → registry_inv w.
Proof.
  intros H. apply registry_inv_all_good. revert H. apply all_good_reachable.
  - intros x s _. apply Set_add_nonempty.
  - auto.
Qed.

Lemma reachable_sets_wf w : reachable w → sets_wf w.
Proof.
  apply (all_good_reachable (λ s, NoDup s)).
  - intros x s [->|H]; apply Set_add_NoDup; [apply NoDup_nil_2 | done].
  - intros x s H _. by apply Set_delete_NoDup.
Qed.


(** ** Counting the frames of a broadcast *)

Lemma deliveries_to_broadcast_cons w C m (h x : ws) (s : list ws) :
  deliveries_to h (broadcast w C m (x :: s))
  = ((if bool_decide (x = h ∧ readyState w x = OPEN) then 1 else 0)
     + deliveries_to h (broadcast w C m s))%nat.
Proof.
  unfold deliveries_to, broadcast.
  destruct (decide (readyState w x = OPEN)) as [Hx|Hx].
  - rewrite filter_cons_True by done. rewrite fmap_cons. cbn [List.filter is_send_to].
    destruct (decide (x = h)) as [->|Hne].
    + rewrite !bool_decide_eq_true_2 by done. done.
    + rewrite !bool_decide_eq_false_2 by tauto. done.
  - rewrite filter_cons_False by done.
    rewrite bool_decide_eq_false_2 by tauto. done.
Qed.

Lemma deliveries_to_broadcast_dead w C m (h : ws) (s : list ws) :
  readyState w h ≠ OPEN → deliveries_to h (broadcast w C m s) = 0%nat.
Proof.
  intros Hd. induction s as [|x s IH]; [done|].
  rewrite deliveries_to_broadcast_cons, IH.
  rewrite bool_decide_eq_false_2; [done|]. intros [-> ?]. done.
Qed.

Lemma deliveries_to_broadcast_notin w C m (h : ws) (s : list ws) :
  h ∉ s → deliveries_to h (broadcast w C m s) = 0%nat.
Proof.
  induction s as [|x s IH]; intros Hn; [done|].
  apply not_elem_of_cons in Hn as [Hne Hn].
  rewrite deliveries_to_broadcast_cons, IH by done.
  rewrite bool_decide_eq_false_2; [done|]. intros [-> ?]. done.
Qed.

Lemma deliveries_to_broadcast_once w C m (h : ws) (s : list ws) :
  NoDup s → h ∈ s → readyState w h = OPEN →
  deliveries_to h (broadcast w C m s) = 1%nat.
Proof.
  intros Hnd Hin Hopen. induction Hnd as [|x s Hx Hnd IH]; [by apply not_elem_of_nil in Hin|].
  rewrite deliveries_to_broadcast_cons.
  apply elem_of_cons in Hin as [->|Hin].
  - rewrite bool_decide_eq_true_2 by done.
    by rewrite deliveries_to_broadcast_notin.
  - rewrite bool_decide_eq_false_2; [by rewrite IH|].
    intros [-> _]. done.
Qed.

Lemma elem_of_broadcast w C m (h : ws) (s : list ws) :
  h ∈ s → readyState w h = OPEN → Send h (envelope C m) ∈ broadcast w C m s.
Proof.
  intros Hin Hopen. unfold broadcast.
  apply (list_elem_of_fmap_2 (λ h, Send h (envelope C m))).
  by apply list_elem_of_filter.
Qed.

(** A body made of one [status] string tells no count. *)
Lemma status_only_no_count (code : Z) (text : string) (n : nat) :
  ¬ reports_count (mkResponse code [("status", JStr text)]) n.
Proof.
  intros [k Hk]. cbn in Hk. by destruct (String.eqb k "status").
Qed.

Lemma handles_lookup (w : World) (C : string) (h : ws) :
  h ∈ handles w C → ∃ s, channels w !! C = Some s ∧ h ∈ s.
Proof.
  unfold handles. destruct (channels w !! C) as [s|]; cbn; [eauto|].
  intros H. by apply not_elem_of_nil in H.
Qed.

Lemma registry_inv_w_one : registry_inv w_one.
Proof.
  apply registry_inv_alt. intros C. cbn.
  destruct (decide (C = "room1")) as [->|Hne].
  - by rewrite lookup_singleton_eq.
  - by rewrite lookup_singleton_ne.
Qed.

Lemma sets_wf_w_one : sets_wf w_one.
Proof.
  intros C s. cbn. destruct (decide (C = "room1")) as [->|Hne].
  - rewrite lookup_singleton_eq. intros [= <-]. apply NoDup_singleton.
  - by rewrite lookup_singleton_ne.
Qed.

(** ** Publish *)

(** C1, as the code has it: on a channel [C] whose subscriber set is
    [{h1, h2}], [publish(C, m)] with a non-empty message hands the envelope
    [{channel: C, message: m}] to each of [h1], [h2] that is [OPEN] (to both
    when both are), in insertion order, and answers [200] with the body
    [{status: 'Message sent'}]; the answer tells no delivery count. *)
Theorem C1_publish_two_subscribers (w : World) (C : string) (m : jsval) (h1 h2 : ws) :
  channels w !! C = Some [h1; h2] → truthy m = true →
  sent_by (publish C m) w = broadcast w C m [h1; h2]
  ∧ (readyState w h1 = OPEN → readyState w h2 = OPEN →
     sent_by (publish C m) w = [Send h1 (envelope C m); Send h2 (envelope C m)])
  ∧ result (publish C m) w = mkResponse 200%Z [("status", JStr "Message sent")]
  ∧ (∀ n, ¬ reports_count (result (publish C m) w) n).
Proof.
  intros Hc Ht. unfold publish.
  rewrite (sent_by_post_send_present C m w _ Ht Hc).
  unfold result. rewrite (post_send_present C m w _ Ht Hc). cbn [fst].
  repeat split.
  - intros H1 H2. unfold broadcast.
    rewrite filter_cons_True by done. rewrite filter_cons_True by done. done.
  - intros n. apply status_only_no_count.
Qed.

Lemma C1_publish_two_subscribers_witness :
  channels w_two_open !! "room1" = Some [1%nat; 2%nat]
  ∧ truthy (JStr "hello") = true
  ∧ sent_by (publish "room1" (JStr "hello")) w_two_open
    = [Send 1%nat (envelope "room1" (JStr "hello"));
       Send 2%nat (envelope "room1" (JStr "hello"))].
Proof.
  assert (Hc : channels w_two_open !! "room1" = Some [1%nat; 2%nat])
    by apply lookup_singleton_eq.
  split; [exact Hc|]. split; [reflexivity|].
  apply (C1_publish_two_subscribers w_two_open "room1" (JStr "hello") 1%nat 2%nat Hc);
    reflexivity.
Defined.

(** C1 as stated fails: with both subscribers of [room1] open, the answer to
    the publisher is [{status: 'Message sent'}], which holds no count, so it
    does not tell the two deliveries that were made. *)
Lemma C1_counterexample :
  handles w_two_open "room1" = [1%nat; 2%nat]
  ∧ readyState w_two_open 1%nat = OPEN ∧ readyState w_two_open 2%nat = OPEN
  ∧ result (publish "room1" (JStr "hello")) w_two_open
    = mkResponse 200%Z [("status", JStr "Message sent")]
  ∧ ¬ reports_count (result (publish "room1" (JStr "hello")) w_two_open) 2.
Proof.
  assert (Hc : channels w_two_open !! "room1" = Some [1%nat; 2%nat])
    by apply lookup_singleton_eq.
  assert (Hr : result (publish "room1" (JStr "hello")) w_two_open
               = mkResponse 200%Z [("status", JStr "Message sent")]).
  { unfold result, publish.
    by rewrite (post_send_present "room1" (JStr "hello") w_two_open _ eq_refl Hc). }
  split; [unfold handles; by rewrite Hc|].
  split; [done|]. split; [done|]. split; [exact Hr|].
  rewrite Hr. apply status_only_no_count.
Qed.

(** C2, as the code has it: for a channel [C] with no entry in the registry
    and a non-empty message [m], [publish(C, m)] hands [m] to nobody, leaves
    the world as it was and answers [200] with the body
    [{status: 'No subscribers, but message accepted'}]: a success, with no
    delivery count in it. *)
Theorem C2_publish_absent_channel (w : World) (C : string) (m : jsval) :
  channels w !! C = None → truthy m = true →
  publish C m w
  = (mkResponse 200%Z [("status", JStr "No subscribers, but message accepted")], w)
  ∧ sent_by (publish C m) w = []
  ∧ status (result (publish C m) w) = 200%Z
  ∧ (∀ n, ¬ reports_count (result (publish C m) w) n).
Proof.
  intros Hc Ht. unfold publish, sent_by, result, run.
  rewrite (post_send_absent C m w Ht Hc). cbn [fst snd status].
  repeat split.
  - apply drop_all.
  - intros n. apply status_only_no_count.
Qed.

Lemma C2_publish_absent_channel_witness :
  channels initial !! "room1" = None
  ∧ truthy (JStr "hello") = true
  ∧ publish "room1" (JStr "hello") initial
    = (mkResponse 200%Z [("status", JStr "No subscribers, but message accepted")],
       initial).
Proof.
  split; [apply lookup_empty|]. split; [reflexivity|].
  apply (C2_publish_absent_channel initial "room1" (JStr "hello"));
    [apply lookup_empty | reflexivity].
Defined.

(** C2 as stated fails: the answer for a channel without entry is a success,
    but it is [{status: 'No subscribers, but message accepted'}] and holds no
    count, so it does not tell a delivery count of 0. *)
Lemma C2_counterexample :
  channels initial !! "room1" = None
  ∧ result (publish "room1" (JStr "hello")) initial
    = mkResponse 200%Z [("status", JStr "No subscribers, but message accepted")]
  ∧ ¬ reports_count (result (publish "room1" (JStr "hello")) initial) 0.
Proof.
  assert (Hc : channels initial !! "room1" = None) by apply lookup_empty.
  assert (Hr : result (publish "room1" (JStr "hello")) initial
               = mkResponse 200%Z
                   [("status", JStr "No subscribers, but message accepted")]).
  { unfold result, publish.
    by rewrite (post_send_absent "room1" (JStr "hello") initial eq_refl Hc). }
  split; [exact Hc|]. split; [exact Hr|].
  rewrite Hr. apply status_only_no_count.
Qed.

Lemma handles_post_send (w : World) (C C' : string) (m : jsval) :
  handles (run (post_send C m) w) C' = handles w C'.
Proof. unfold handles. by destruct (post_send_frame C m w) as [-> _]. Qed.

(** A socket that is not open gets nothing from a publish, whatever branch
    the handler takes. *)
Lemma deliveries_to_post_send_dead (w : World) (C : string) (m : jsval) (h : ws) :
  readyState w h ≠ OPEN → deliveries_to h (sent_by (post_send C m) w) = 0%nat.
Proof.
  intros Hd. destruct (truthy m) eqn:Ht.
  - destruct (channels w !! C) as [s|] eqn:Hc.
    + rewrite (sent_by_post_send_present C m w s Ht Hc).
      by apply deliveries_to_broadcast_dead.
    + unfold sent_by, run. rewrite (post_send_absent C m w Ht Hc). cbn [snd].
      by rewrite drop_all.
  - unfold sent_by, run. rewrite (post_send_falsy C m w Ht). cbn [snd].
    by rewrite drop_all.
Qed.

(** After its close listener has run, a socket is in the set no more. *)
Lemma ws_on_close_removes (w : World) (C : string) (h : ws) :
  h ∉ handles (run (ws_on_close C h) w) C.
Proof.
  unfold run, handles. destruct (channels w !! C) as [s|] eqn:Hc.
  - destruct (decide (Set_delete h s = [])) as [Hd|Hd].
    + rewrite (ws_on_close_prune C h w s Hc Hd). cbn.
      rewrite lookup_delete_eq. apply not_elem_of_nil.
    + rewrite (ws_on_close_keep C h w s Hc Hd). cbn.
      rewrite lookup_insert_eq. cbn. rewrite Set_delete_elem. tauto.
  - rewrite (ws_on_close_absent C h w Hc). cbn. rewrite Hc. apply not_elem_of_nil.
Qed.

(** C3, as the code has it: a handle [h] of [C]'s set that is not [OPEN] at
    delivery time is skipped by [publish(C, m)], and the open handles of the
    set still get the envelope; but publish does not remove [h]: it stays in
    [C]'s set, every later publish skips it again while it is not open, and it
    leaves the set when its close listener ([unsubscribe]) runs. *)
Theorem C3_publish_skips_dead_handle (w : World) (C : string) (m : jsval) (h : ws) :
  h ∈ handles w C → readyState w h ≠ OPEN → truthy m = true →
  deliveries_to h (sent_by (publish C m) w) = 0%nat
  ∧ (∀ h', h' ∈ handles w C → readyState w h' = OPEN →
       Send h' (envelope C m) ∈ sent_by (publish C m) w)
  ∧ h ∈ handles (run (publish C m) w) C
  ∧ (∀ m', deliveries_to h (sent_by (publish C m') (run (publish C m) w)) = 0%nat)
  ∧ h ∉ handles (run (unsubscribe C h) (run (publish C m) w)) C.
Proof.
  intros Hin Hd Ht. unfold publish, unsubscribe.
  split; [by apply deliveries_to_post_send_dead|].
  split.
  { intros h' Hin' Hopen. destruct (handles_lookup w C h' Hin') as (s & Hc & Hs).
    rewrite (sent_by_post_send_present C m w s Ht Hc). by apply elem_of_broadcast. }
  split; [by rewrite handles_post_send|].
  split; [|apply ws_on_close_removes].
  intros m'. apply deliveries_to_post_send_dead.
  by destruct (post_send_frame C m w) as (_ & -> & _).
Qed.

Lemma C3_publish_skips_dead_handle_witness :
  1%nat ∈ handles w_one_dead "room1"
  ∧ readyState w_one_dead 1%nat ≠ OPEN
  ∧ deliveries_to 1%nat (sent_by (publish "room1" (JStr "hello")) w_one_dead) = 0%nat
  ∧ 1%nat ∈ handles (run (publish "room1" (JStr "hello")) w_one_dead) "room1".
Proof.
  assert (Hin : 1%nat ∈ handles w_one_dead "room1").
  { unfold handles. cbn. rewrite lookup_singleton_eq. cbn. left. }
  assert (Hd : readyState w_one_dead 1%nat ≠ OPEN) by (cbn; discriminate).
  split; [exact Hin|]. split; [exact Hd|].
  pose proof (C3_publish_skips_dead_handle w_one_dead "room1" (JStr "hello") 1%nat
                Hin Hd eq_refl) as (H1 & _ & H3 & _).
  split; [exact H1 | exact H3].
Defined.

(** C3 as stated fails: socket 1 of [room1] is closed when [hello] is
    published, and it is still in [room1]'s set after the publish. *)
Lemma C3_counterexample :
  handles w_one_dead "room1" = [1%nat; 2%nat]
  ∧ readyState w_one_dead 1%nat = CLOSED
  ∧ sent_by (publish "room1" (JStr "hello")) w_one_dead
    = [Send 2%nat (envelope "room1" (JStr "hello"))]
  ∧ handles (run (publish "room1" (JStr "hello")) w_one_dead) "room1"
    = [1%nat; 2%nat].
Proof.
  assert (Hc : channels w_one_dead !! "room1" = Some [1%nat; 2%nat])
    by apply lookup_singleton_eq.
  assert (Hh : handles w_one_dead "room1" = [1%nat; 2%nat])
    by (unfold handles; by rewrite Hc).
  split; [exact Hh|]. split; [reflexivity|]. split.
  - unfold publish.
    rewrite (sent_by_post_send_present "room1" (JStr "hello") _ _ eq_refl Hc).
    reflexivity.
  - unfold publish. by rewrite handles_post_send.
Qed.

(** C10: [publish(C, m)] leaves the channel mapping as it found it, for every
    world, channel and message: no handle is removed and no entry is pruned,
    also when some handles of [C] are not open. *)
Theorem C10_publish_leaves_registry_unchanged (w : World) (C : string) (m : jsval) :
  channels (run (publish C m) w) = channels w.
Proof. unfold publish. by destruct (post_send_frame C m w) as [-> _]. Qed.

(** ** Subscribe and unsubscribe *)

Lemma Set_add_elem_of (x y : ws) (s : list ws) : y ∈ Set_add x s ↔ y ∈ s ∨ y = x.
Proof.
  destruct (decide (x ∈ s)) as [H|H].
  - rewrite Set_add_elem by done. split; [tauto|]. by intros [?| ->].
  - rewrite Set_add_fresh by done. rewrite elem_of_app, list_elem_of_singleton. tauto.
Qed.

Lemma subscribe_empty (w : World) (h : ws) :
  subscribe "" h w
  = (tt, mkWorld (channels w) (readyState w) (listeners w)
                 (trace w ++ [WsClose h 1008%Z "Channel required in URL"])).
Proof. unfold subscribe. by apply wss_on_connection_reject. Qed.

Lemma subscribe_admit (w : World) (C : string) (h : ws) :
  C ≠ "" →
  subscribe C h w
  = (tt, mkWorld (<[C := Set_add h (handles w C)]> (channels w)) (readyState w)
                 (listeners w ++ [(h, C)]) (trace w)).
Proof.
  intros HC. unfold subscribe. rewrite wss_on_connection_admit.
  - by rewrite substring_from_1_slash.
  - by rewrite substring_from_1_slash.
Qed.

Lemma subscribe_readyState (w : World) (C : string) (h : ws) :
  readyState (run (subscribe C h) w) = readyState w.
Proof.
  unfold run. destruct (decide (C = "")) as [->|HC].
  - by rewrite subscribe_empty.
  - by rewrite subscribe_admit.
Qed.

(** Subscribing a member of the set writes the same set back. *)
Lemma subscribe_member (w : World) (C : string) (h : ws) :
  h ∈ handles w C → channels (run (subscribe C h) w) = channels w.
Proof.
  intros Hin. unfold run. destruct (decide (C = "")) as [->|HC].
  - by rewrite subscribe_empty.
  - rewrite subscribe_admit by done. cbn.
    destruct (handles_lookup w C h Hin) as (s & Hc & Hs).
    unfold handles. rewrite Hc. cbn. rewrite Set_add_elem by done.
    by apply insert_id.
Qed.

(** The close listener of the only socket of a channel (or of a channel
    without entry) leaves the channel without entry. *)
Lemma ws_on_close_last (w : World) (C : string) (h : ws) :
  (∀ x, x ∈ handles w C → x = h) → channels (run (ws_on_close C h) w) !! C = None.
Proof.
  unfold handles, run. intros H. destruct (channels w !! C) as [s|] eqn:Hc.
  - cbn in H. rewrite (ws_on_close_prune C h w s Hc (Set_delete_only h s H)). cbn.
    apply lookup_delete_eq.
  - by rewrite (ws_on_close_absent C h w Hc).
Qed.

(** C4: each operation of the registry keeps the invariant that a channel
    has an entry exactly when its subscriber set is not empty; the
    unsubscribe that takes the last handle of a set drops the entry in the
    same step. *)
Theorem C4_operations_preserve_registry_inv (w : World) :
  registry_inv w →
  (∀ C h, registry_inv (run (subscribe C h) w))
  ∧ (∀ C h, registry_inv (run (unsubscribe C h) w))
  ∧ (∀ C m, registry_inv (run (publish C m) w))
  ∧ (∀ C h, (∀ x, x ∈ handles w C → x = h) →
       channels (run (unsubscribe C h) w) !! C = None).
Proof.
  intros Hinv. split; [|split; [|split]].
  - intros C h. by apply registry_inv_wss_on_connection.
  - intros C h. by apply registry_inv_ws_on_close.
  - intros C m. by apply registry_inv_post_send.
  - intros C h. apply ws_on_close_last.
Qed.

Lemma C4_operations_preserve_registry_inv_witness :
  registry_inv w_one
  ∧ registry_inv (run (subscribe "room1" 2%nat) w_one)
  ∧ registry_inv (run (unsubscribe "room1" 1%nat) w_one)
  ∧ channels (run (unsubscribe "room1" 1%nat) w_one) !! "room1" = None.
Proof.
  split; [exact registry_inv_w_one|].
  pose proof (C4_operations_preserve_registry_inv w_one registry_inv_w_one)
    as (Hs & Hu & _ & Hp).
  split; [apply Hs|]. split; [apply Hu|].
  apply Hp. unfold handles. cbn. rewrite lookup_singleton_eq. cbn.
  intros x Hx. by apply list_elem_of_singleton in Hx.
Defined.

(** When [C] has no subscriber other than [h], a connection of [h] on [C]
    followed by its close leaves [C] without entry. *)
Lemma subscribe_unsubscribe_single (w : World) (C : string) (h : ws) :
  (∀ x, x ∈ handles w C → x = h) →
  channels (run (unsubscribe C h) (run (subscribe C h) w)) !! C = None.
Proof.
  intros Honly. unfold unsubscribe. apply ws_on_close_last.
  unfold run at 1. destruct (decide (C = "")) as [->|HC].
  - rewrite subscribe_empty. exact Honly.
  - rewrite subscribe_admit by done. unfold handles at 1. cbn.
    rewrite lookup_insert_eq. cbn. intros x Hx.
    apply Set_add_elem_of in Hx as [Hx|Hx]; [by apply Honly | done].
Qed.

(** A subscriber that stays keeps the entry: socket 1 is on [room1], socket 2
    joins and leaves, and [room1] still holds socket 1. *)
Example unsubscribe_keeps_other_subscribers :
  channels (run (unsubscribe "room1" 2%nat) (run (subscribe "room1" 2%nat) w_one))
    !! "room1" = Some [1%nat].
Proof.
  unfold run at 2. rewrite subscribe_admit by done.
  unfold handles. cbn [channels w_one]. rewrite lookup_singleton_eq.
  unfold unsubscribe, run.
  rewrite (ws_on_close_keep "room1" 2%nat _ [1%nat; 2%nat]).
  - cbn. by rewrite lookup_insert_eq.
  - cbn. by rewrite lookup_insert_eq.
  - done.
Qed.

(** C8: on a registry that satisfies its invariant, [unsubscribe(C, h)] for a
    channel [C] without entry, or for a handle [h] that is not in [C]'s set,
    changes nothing: the listener returns and the world is the same. *)
Theorem C8_unsubscribe_absent_noop (w : World) (C : string) (h : ws) :
  registry_inv w →
  (channels w !! C = None ∨ h ∉ handles w C) →
  unsubscribe C h w = (tt, w).
Proof.
  intros Hinv Habs. unfold unsubscribe.
  destruct (channels w !! C) as [s|] eqn:Hc; [|by apply ws_on_close_absent].
  destruct Habs as [Habs|Habs]; [done|].
  unfold handles in Habs. rewrite Hc in Habs. cbn in Habs.
  assert (Hne : s ≠ []).
  { intros ->. by apply (proj1 (registry_inv_alt w) Hinv C). }
  rewrite (ws_on_close_keep C h w s Hc) by (by rewrite Set_delete_absent).
  rewrite Set_delete_absent by done. rewrite insert_id by done. by destruct w.
Qed.

Lemma C8_unsubscribe_absent_noop_witness :
  registry_inv w_one
  ∧ (2%nat ∉ handles w_one "room1")
  ∧ unsubscribe "room1" 2%nat w_one = (tt, w_one)
  ∧ unsubscribe "room2" 1%nat w_one = (tt, w_one).
Proof.
  assert (H2 : 2%nat ∉ handles w_one "room1").
  { unfold handles. cbn. rewrite lookup_singleton_eq. cbn.
    intros Hx. by apply list_elem_of_singleton in Hx. }
  split; [exact registry_inv_w_one|]. split; [exact H2|]. split.
  - apply (C8_unsubscribe_absent_noop w_one "room1" 2%nat registry_inv_w_one).
    by right.
  - apply (C8_unsubscribe_absent_noop w_one "room2" 1%nat registry_inv_w_one).
    left. by apply lookup_singleton_ne.
Defined.

(** C9: a connection whose request target gives an empty channel name is
    closed with code 1008 and reason [Channel required in URL], and nothing
    else happens: the registry is the same, so the socket is in no set it was
    not in before, and no close listener is registered for it. *)
Theorem C9_empty_channel_rejected (w : World) (sock : ws) (url : string) :
  substring_from 1 url = "" →
  wss_on_connection sock url w
  = (tt, mkWorld (channels w) (readyState w) (listeners w)
                 (trace w ++ [WsClose sock 1008%Z "Channel required in URL"]))
  ∧ channels (run (wss_on_connection sock url) w) = channels w
  ∧ (∀ C, handles (run (wss_on_connection sock url) w) C = handles w C)
  ∧ listeners (run (wss_on_connection sock url) w) = listeners w
  ∧ sent_by (wss_on_connection sock url) w
    = [WsClose sock 1008%Z "Channel required in URL"].
Proof.
  intros Hu. unfold sent_by, handles, run.
  rewrite (wss_on_connection_reject sock url w Hu). cbn.
  repeat split. by rewrite drop_app_length.
Qed.

Lemma C9_empty_channel_rejected_witness :
  substring_from 1 "/" = ""
  ∧ channels (run (wss_on_connection 1%nat "/") w_one) = channels w_one
  ∧ sent_by (wss_on_connection 1%nat "/") initial
    = [WsClose 1%nat 1008%Z "Channel required in URL"].
Proof.
  split; [reflexivity|].
  pose proof (C9_empty_channel_rejected w_one 1%nat "/" eq_refl) as (_ & H1 & _).
  pose proof (C9_empty_channel_rejected initial 1%nat "/" eq_refl) as (_ & _ & _ & _ & H2).
  split; [exact H1 | exact H2].
Defined.

(** ** Strings: prefixes and pieces *)

Lemma prefix_app (p r : string) : String.prefix p (p +:+ r) = true.
Proof.
  induction p as [|a p IH].
  - change ("" +:+ r) with r. by destruct r.
  - change (String a p +:+ r) with (String a (p +:+ r)). simpl.
    destruct (Ascii.ascii_dec a a); [exact IH | done].
Qed.

Lemma prefix_inv (p s : string) : String.prefix p s = true → ∃ r, s = p +:+ r.
Proof.
  revert s. induction p as [|a p IH]; intros s H.
  - by exists s.
  - destruct s as [|b s]; [done|]. cbn in H.
    destruct (Ascii.ascii_dec a b) as [->|]; [|done].
    destruct (IH s H) as [r ->]. by exists r.
Qed.

Lemma string_app_nil_r (s : string) : s +:+ "" = s.
Proof.
  induction s as [|a s IH]; [done|].
  change (String a s +:+ "") with (String a (s +:+ "")). by rewrite IH.
Qed.

Lemma split_on_not_nil (sep : ascii) (s : string) : split_on sep s ≠ [].
Proof.
  destruct s as [|a s]; [done|]. cbn.
  destruct (Ascii.eqb a sep); [done|]. by destruct (split_on sep s).
Qed.

(** A piece without separator, then a separator: the piece is cut there. *)
Lemma split_on_piece (sep : ascii) (p r : string) :
  includes_char sep p = false →
  split_on sep (p +:+ String sep r) = p :: split_on sep r.
Proof.
  induction p as [|a p IH]; intros H.
  - change ("" +:+ String sep r) with (String sep r). cbn [split_on].
    by rewrite Ascii.eqb_refl.
  - cbn in H. apply orb_false_iff in H as [Ha Hp].
    change (String a p +:+ String sep r) with (String a (p +:+ String sep r)).
    cbn [split_on]. rewrite Ha. by rewrite (IH Hp).
Qed.

Lemma split_on_whole (sep : ascii) (p : string) :
  includes_char sep p = false → split_on sep p = [p].
Proof.
  induction p as [|a p IH]; intros H; [done|].
  cbn in H. apply orb_false_iff in H as [Ha Hp].
  cbn. rewrite Ha. by rewrite (IH Hp).
Qed.

(** The first piece holds no separator and is followed by the end of the
    string or by a separator. *)
Lemma split_on_inv (sep : ascii) (s x : string) (xs : list string) :
  split_on sep s = x :: xs →
  includes_char sep x = false
  ∧ ((xs = [] ∧ s = x) ∨ ∃ r, s = x +:+ String sep r ∧ xs = split_on sep r).
Proof.
  revert x xs. induction s as [|a s IH]; intros x xs H.
  - cbn in H. injection H as <- <-. split; [done|]. by left.
  - cbn in H. destruct (Ascii.eqb a sep) eqn:Ha.
    + injection H as <- <-. split; [done|]. right. exists s.
      apply Ascii.eqb_eq in Ha as ->. done.
    + destruct (split_on sep s) as [|y ys] eqn:Hs; [by apply split_on_not_nil in Hs|].
      injection H as <- <-. destruct (IH y ys eq_refl) as [Hy Hcase].
      split; [cbn; by rewrite Ha|].
      destruct Hcase as [[-> ->]|(r & -> & ->)]; [by left|].
      right. by exists r.
Qed.

Lemma split_on_Bearer (rest : string) :
  split_on " " ("Bearer " +:+ rest) !! 1%nat = head (split_on " " rest).
Proof.
  change ("Bearer " +:+ rest) with ("Bearer" +:+ String " " rest).
  rewrite split_on_piece by done. cbn. by destruct (split_on " " rest).
Qed.

(** ** Bearer authentication *)

(** [authMiddleware] on a header that starts with [Bearer ]. *)
Lemma authMiddleware_Bearer (secret rest : string) :
  authMiddleware secret (Some ("Bearer " +:+ rest))
  = if bool_decide (head (split_on " " rest) = Some secret) then Next
    else Respond (mkResponse 403%Z [("error", JStr "Forbidden: Invalid token")]).
Proof.
  unfold authMiddleware.
  replace (String.eqb ("Bearer " +:+ rest) "") with false by done.
  rewrite prefix_app. cbn [negb orb]. rewrite split_on_Bearer.
  by destruct (bool_decide (head (split_on " " rest) = Some secret)).
Qed.

Lemma authMiddleware_Next_inv (secret : string) (authorization : option string) :
  authMiddleware secret authorization = Next →
  includes_char " " secret = false
  ∧ ∃ rest, authorization = Some ("Bearer " +:+ secret +:+ rest)
            ∧ (rest = "" ∨ ∃ tail, rest = String " " tail).
Proof.
  intros H. destruct authorization as [h|]; [|done].
  assert (Hp : String.prefix "Bearer " h = true).
  { unfold authMiddleware in H. destruct (String.eqb h ""); [done|].
    by destruct (String.prefix "Bearer " h). }
  destruct (prefix_inv _ _ Hp) as [rest ->].
  rewrite authMiddleware_Bearer in H. case_bool_decide as Hd; [|done].
  destruct (split_on " " rest) as [|x xs] eqn:Hs; [done|].
  cbn in Hd. injection Hd as ->.
  destruct (split_on_inv _ _ _ _ Hs) as [Hx Hcase]. split; [done|].
  destruct Hcase as [[-> ->]|(r & -> & ->)].
  - exists "". split; [|by left]. by rewrite string_app_nil_r.
  - exists (String " " r). split; [done|]. right. by exists r.
Qed.

(** A header [Bearer <secret>] is let through, and so is the same header
    followed by a space and anything else. *)
Lemma authMiddleware_accepts (secret tail : string) :
  includes_char " " secret = false →
  authMiddleware secret (Some ("Bearer " +:+ secret)) = Next
  ∧ authMiddleware secret (Some ("Bearer " +:+ secret +:+ " " +:+ tail)) = Next.
Proof.
  intros H. rewrite !authMiddleware_Bearer. split.
  - rewrite split_on_whole by done. by rewrite bool_decide_eq_true_2.
  - change (" " +:+ tail) with (String " " tail).
    rewrite split_on_piece by done. by rewrite bool_decide_eq_true_2.
Qed.

(** X1: the middleware calls [next()] exactly for the headers made of
    [Bearer ], the secret, and then the end of the header or a space and
    anything else ([split(' ')] keeps the piece between the first and the
    second space only), and only when the secret holds no space. *)
Theorem authMiddleware_next_iff (secret : string) (authorization : option string) :
  authMiddleware secret authorization = Next
  ↔ includes_char " " secret = false
    ∧ ∃ rest, authorization = Some ("Bearer " +:+ secret +:+ rest)
              ∧ (rest = "" ∨ ∃ tail, rest = String " " tail).
Proof.
  split; [apply authMiddleware_Next_inv|].
  intros (Hs & rest & -> & [->|[tail ->]]).
  - rewrite string_app_nil_r. by apply (authMiddleware_accepts secret "").
  - by apply (authMiddleware_accepts secret tail).
Qed.

(** X2: with a secret that holds a space every request is refused: the token
    read from the header never holds one. *)
Theorem authMiddleware_secret_with_space (secret : string) (authorization : option string) :
  includes_char " " secret = true →
  ∃ r, authMiddleware secret authorization = Respond r
       ∧ (status r = 401%Z ∨ status r = 403%Z).
Proof.
  intros Hs. destruct (authMiddleware secret authorization) as [|r] eqn:H.
  - apply authMiddleware_Next_inv in H as [H _]. congruence.
  - exists r. split; [done|]. unfold authMiddleware in H.
    destruct authorization as [h|]; [|injection H as <-; by left].
    destruct (String.eqb h "" || negb (String.prefix "Bearer " h));
      [injection H as <-; by left|].
    destruct (negb _); [injection H as <-; by right | done].
Qed.

Lemma authMiddleware_secret_with_space_witness :
  ∃ r, authMiddleware "my secret" (Some "Bearer my secret") = Respond r
       ∧ (status r = 401%Z ∨ status r = 403%Z).
Proof.
  exact (authMiddleware_secret_with_space "my secret" (Some "Bearer my secret") eq_refl).
Defined.

(** X3: whatever the environment holds, the secret is not empty, so a header
    [Bearer ] with nothing after it is answered 403; and with no variable set
    the secret is [default-secret]. *)
Theorem BEARER_TOKEN_never_empty (env : option string) :
  BEARER_TOKEN env ≠ ""
  ∧ authMiddleware (BEARER_TOKEN env) (Some "Bearer ")
    = Respond (mkResponse 403%Z [("error", JStr "Forbidden: Invalid token")])
  ∧ (env = None ∨ env = Some "" →
     authMiddleware (BEARER_TOKEN env) (Some "Bearer default-secret") = Next).
Proof.
  assert (Hne : BEARER_TOKEN env ≠ "").
  { unfold BEARER_TOKEN. destruct env as [s|]; [|done].
    destruct (String.eqb s "") eqn:E; [done|]. by apply String.eqb_neq. }
  split; [exact Hne|]. split.
  - change (Some "Bearer ") with (Some ("Bearer " +:+ "")).
    rewrite authMiddleware_Bearer. cbn.
    rewrite bool_decide_eq_false_2; [done|]. intros [= H]. by apply Hne.
  - by intros [->| ->].
Qed.

(** ** The frames of a publish *)

(** What the handler adds to the trace, whatever branch it takes. *)
Lemma sent_by_post_send (w : World) (C : string) (m : jsval) :
  sent_by (post_send C m) w
  = if truthy m then broadcast w C m (handles w C) else [].
Proof.
  unfold handles. destruct (truthy m) eqn:Ht.
  - destruct (channels w !! C) as [s|] eqn:Hc.
    + by rewrite (sent_by_post_send_present C m w s Ht Hc).
    + unfold sent_by, run. rewrite (post_send_absent C m w Ht Hc). cbn [snd].
      by rewrite drop_all.
  - unfold sent_by, run. rewrite (post_send_falsy C m w Ht). cbn [snd].
    by rewrite drop_all.
Qed.

Lemma trace_post_send (w : World) (C : string) (m : jsval) :
  trace (run (post_send C m) w) = trace w ++ sent_by (post_send C m) w.
Proof.
  rewrite sent_by_post_send. unfold run, handles. destruct (truthy m) eqn:Ht.
  - destruct (channels w !! C) as [s|] eqn:Hc.
    + by rewrite (post_send_present C m w s Ht Hc).
    + rewrite (post_send_absent C m w Ht Hc). cbn. by rewrite app_nil_r.
  - rewrite (post_send_falsy C m w Ht). cbn. by rewrite app_nil_r.
Qed.

Lemma elem_of_broadcast_inv (w : World) (C : string) (m : jsval) (s : list ws) (e : effect) :
  e ∈ broadcast w C m s →
  ∃ h, e = Send h (envelope C m) ∧ h ∈ s ∧ readyState w h = OPEN.
Proof.
  unfold broadcast. intros H. apply list_elem_of_fmap in H as (h & -> & Hh).
  apply list_elem_of_filter in Hh as [Hopen Hin]. by exists h.
Qed.

Lemma broadcast_length (w : World) (C : string) (m : jsval) (s : list ws) :
  length (broadcast w C m s) = length (filter (λ h, readyState w h = OPEN) s).
Proof. unfold broadcast. apply length_fmap. Qed.

(** X4: the frames of [POST /send/C] are exactly one envelope
    [{channel: C, message: m}] for each socket of [C]'s set that is [OPEN], in
    the order of the set, when [m] is not falsy, and none otherwise; so their
    number is the number of open subscribers of [C]. *)
Theorem post_send_frames (w : World) (C : string) (m : jsval) :
  sent_by (post_send C m) w
  = (if truthy m then broadcast w C m (handles w C) else [])
  ∧ length (sent_by (post_send C m) w)
    = (if truthy m
       then length (filter (λ h, readyState w h = OPEN) (handles w C))
       else 0%nat).
Proof.
  rewrite sent_by_post_send. split; [done|].
  destruct (truthy m); [apply broadcast_length | done].
Qed.

(** X5: a publish on [C] closes no socket and hands nothing to a socket that
    is not in [C]'s set or is not open: every effect of the handler is the
    envelope of this request, sent to an open member of [C]. *)
Theorem post_send_only_open_members (w : World) (C : string) (m : jsval) :
  (∀ e, e ∈ sent_by (post_send C m) w →
     truthy m = true
     ∧ ∃ h, e = Send h (envelope C m) ∧ h ∈ handles w C ∧ readyState w h = OPEN)
  ∧ (∀ h, h ∉ handles w C ∨ readyState w h ≠ OPEN →
       deliveries_to h (sent_by (post_send C m) w) = 0%nat).
Proof.
  rewrite sent_by_post_send. split.
  - intros e He. destruct (truthy m); [|by apply not_elem_of_nil in He].
    split; [done|]. by apply elem_of_broadcast_inv.
  - intros h Hh. destruct (truthy m); [|done].
    destruct Hh as [Hh|Hh].
    + by apply deliveries_to_broadcast_notin.
    + by apply deliveries_to_broadcast_dead.
Qed.

(** X6: a publish changes nothing of what a later publish hands out: the
    frames of a second request are the same as if the first had not been
    made. *)
Theorem post_send_independent (w : World) (C1 C2 : string) (m1 m2 : jsval) :
  sent_by (post_send C2 m2) (run (post_send C1 m1) w)
  = sent_by (post_send C2 m2) w.
Proof.
  rewrite !sent_by_post_send. rewrite handles_post_send. unfold broadcast.
  by destruct (post_send_frame C1 m1 w) as (_ & -> & _).
Qed.

(** ** The route *)

Lemma authMiddleware_Respond_status (secret : string) (authorization : option string)
    (r : response) :
  authMiddleware secret authorization = Respond r →
  status r = 401%Z ∨ status r = 403%Z.
Proof.
  unfold authMiddleware. intros H.
  destruct authorization as [h|]; [|injection H as <-; by left].
  destruct (String.eqb h "" || negb (String.prefix "Bearer " h));
    [injection H as <-; by left|].
  destruct (negb _); [injection H as <-; by right | done].
Qed.

Lemma post_send_status (w : World) (C : string) (m : jsval) :
  status (result (post_send C m) w) = (if truthy m then 200%Z else 400%Z)
  ∧ (truthy m = false → post_send C m w = (result (post_send C m) w, w)).
Proof.
  unfold result. destruct (truthy m) eqn:Ht.
  - split; [|done]. destruct (channels w !! C) as [s|] eqn:Hc.
    + by rewrite (post_send_present C m w s Ht Hc).
    + by rewrite (post_send_absent C m w Ht Hc).
  - by rewrite (post_send_falsy C m w Ht).
Qed.

(** X7: the route answers 200 exactly when the header passes the middleware
    and the body has a message that is not falsy; with any other answer (400,
    401, 403) the world is as before; and the registry is never changed. *)
Theorem send_route_status (w : World) (secret : string) (authorization : option string)
    (C : string) (body : list (string * jsval)) :
  (status (result (send_route secret authorization C body) w) = 200%Z
   ↔ authMiddleware secret authorization = Next ∧ truthy (body_message body) = true)
  ∧ (status (result (send_route secret authorization C body) w) ≠ 200%Z →
     run (send_route secret authorization C body) w = w)
  ∧ channels (run (send_route secret authorization C body) w) = channels w.
Proof.
  unfold send_route.
  destruct (authMiddleware secret authorization) as [|r] eqn:Ha.
  - destruct (post_send_status w C (body_message body)) as [Hs Hw].
    rewrite Hs. destruct (truthy (body_message body)) eqn:Ht.
    + split; [done|]. split; [done|]. by destruct (post_send_frame C (body_message body) w).
    + unfold run. rewrite (Hw eq_refl). cbn. split; [|done]. split; [done|]. by intros [_ ?].
  - apply authMiddleware_Respond_status in Ha. unfold result, run, ret. cbn.
    split; [|done]. split; [lia|]. by intros [? _].
Qed.

(** X8: a frame leaves the route only for a request that passed the
    middleware with a message that is not falsy, and it is the envelope of
    that message, for an open subscriber of the request's channel. *)
Theorem send_route_frames (w : World) (secret : string) (authorization : option string)
    (C : string) (body : list (string * jsval)) (e : effect) :
  e ∈ sent_by (send_route secret authorization C body) w →
  authMiddleware secret authorization = Next
  ∧ truthy (body_message body) = true
  ∧ ∃ h, e = Send h (envelope C (body_message body))
         ∧ h ∈ handles w C ∧ readyState w h = OPEN.
Proof.
  unfold send_route. destruct (authMiddleware secret authorization) as [|r].
  - rewrite sent_by_post_send. intros He.
    destruct (truthy (body_message body)); [|by apply not_elem_of_nil in He].
    split; [done|]. split; [done|]. by apply elem_of_broadcast_inv.
  - unfold sent_by, run, ret. cbn. rewrite drop_all. intros He.
    by apply not_elem_of_nil in He.
Qed.

Lemma send_route_frames_witness :
  ∃ h, Send 2%nat (envelope "room1" (JStr "hello"))
       = Send h (envelope "room1" (body_message [("message", JStr "hello")]))
       ∧ h ∈ handles w_one_dead "room1" ∧ readyState w_one_dead h = OPEN.
Proof.
  assert (He : Send 2%nat (envelope "room1" (JStr "hello"))
               ∈ sent_by (send_route "s3cret" (Some "Bearer s3cret") "room1"
                            [("message", JStr "hello")]) w_one_dead).
  { vm_compute. left. }
  exact (proj2 (proj2 (send_route_frames w_one_dead "s3cret" (Some "Bearer s3cret")
                         "room1" [("message", JStr "hello")] _ He))).
Defined.

(** ** What a connection and a close leave alone *)

Lemma handles_ws_on_close (w : World) (C : string) (h : ws) :
  handles (run (ws_on_close C h) w) C = Set_delete h (handles w C).
Proof.
  unfold run, handles. destruct (channels w !! C) as [s|] eqn:Hc.
  - destruct (decide (Set_delete h s = [])) as [Hd|Hd].
    + rewrite (ws_on_close_prune C h w s Hc Hd). cbn [snd channels].
      rewrite lookup_delete_eq. exact (eq_sym Hd).
    + rewrite (ws_on_close_keep C h w s Hc Hd). cbn [snd channels].
      by rewrite lookup_insert_eq.
  - rewrite (ws_on_close_absent C h w Hc). cbn [snd]. by rewrite Hc.
Qed.

Lemma ws_on_close_other (w : World) (C C' : string) (h : ws) :
  C' ≠ C → channels (run (ws_on_close C h) w) !! C' = channels w !! C'.
Proof.
  intros Hne. unfold run. destruct (channels w !! C) as [s|] eqn:Hc.
  - destruct (decide (Set_delete h s = [])) as [Hd|Hd].
    + rewrite (ws_on_close_prune C h w s Hc Hd). cbn. by rewrite lookup_delete_ne.
    + rewrite (ws_on_close_keep C h w s Hc Hd). cbn. by rewrite lookup_insert_ne.
  - by rewrite (ws_on_close_absent C h w Hc).
Qed.

(** The listener writes the registry and nothing else. *)
Lemma ws_on_close_rest (w : World) (C : string) (h : ws) :
  readyState (run (ws_on_close C h) w) = readyState w
  ∧ listeners (run (ws_on_close C h) w) = listeners w
  ∧ trace (run (ws_on_close C h) w) = trace w.
Proof.
  unfold run. destruct (channels w !! C) as [s|] eqn:Hc.
  - destruct (decide (Set_delete h s = [])) as [Hd|Hd].
    + by rewrite (ws_on_close_prune C h w s Hc Hd).
    + by rewrite (ws_on_close_keep C h w s Hc Hd).
  - by rewrite (ws_on_close_absent C h w Hc).
Qed.

(** X9: the close listener of socket [h] on channel [C] takes [h] out of
    [C]'s set and changes nothing else: the other members of [C] stay, in
    their order, every other channel keeps its entry, and no frame is sent,
    no listener added. *)
Theorem ws_on_close_removes_only_its_socket (w : World) (C : string) (h : ws) :
  handles (run (ws_on_close C h) w) C = Set_delete h (handles w C)
  ∧ (∀ h', h' ∈ handles (run (ws_on_close C h) w) C ↔ h' ∈ handles w C ∧ h' ≠ h)
  ∧ (∀ C', C' ≠ C → channels (run (ws_on_close C h) w) !! C' = channels w !! C')
  ∧ trace (run (ws_on_close C h) w) = trace w
  ∧ listeners (run (ws_on_close C h) w) = listeners w.
Proof.
  split; [apply handles_ws_on_close|]. split.
  { intros h'. rewrite handles_ws_on_close. apply Set_delete_elem. }
  split; [intros C'; apply ws_on_close_other|].
  by destruct (ws_on_close_rest w C h) as (_ & -> & ->).
Qed.

(** X10: the close listener may fire twice: the second run changes nothing. *)
Theorem ws_on_close_twice (w : World) (C : string) (h : ws) :
  run (ws_on_close C h) (run (ws_on_close C h) w) = run (ws_on_close C h) w.
Proof.
  unfold run at 2 3. destruct (channels w !! C) as [s|] eqn:Hc.
  - destruct (decide (Set_delete h s = [])) as [Hd|Hd].
    + rewrite (ws_on_close_prune C h w s Hc Hd). cbn [snd]. unfold run.
      rewrite ws_on_close_absent; [done|]. cbn. apply lookup_delete_eq.
    + rewrite (ws_on_close_keep C h w s Hc Hd). cbn [snd]. unfold run.
      assert (Hs : Set_delete h (Set_delete h s) = Set_delete h s).
      { apply Set_delete_absent. rewrite Set_delete_elem. tauto. }
      rewrite (ws_on_close_keep C h _ (Set_delete h s)).
      * cbn. rewrite Hs. by rewrite insert_insert_eq.
      * cbn. apply lookup_insert_eq.
      * by rewrite Hs.
  - rewrite (ws_on_close_absent C h w Hc). cbn [snd]. unfold run.
    by rewrite (ws_on_close_absent C h w Hc).
Qed.

Lemma deliveries_to_broadcast_delete (w : World) (C : string) (m : jsval)
    (h h' : ws) (s : list ws) :
  h' ≠ h →
  deliveries_to h' (broadcast w C m (Set_delete h s))
  = deliveries_to h' (broadcast w C m s).
Proof.
  intros Hne. unfold Set_delete. induction s as [|x s IH]; [done|].
  destruct (decide (x = h)) as [->|Hx].
  - rewrite filter_cons_False by (intros ?; done).
    rewrite deliveries_to_broadcast_cons, IH.
    rewrite bool_decide_eq_false_2; [done|]. intros [? _]. congruence.
  - rewrite filter_cons_True by done.
    by rewrite !deliveries_to_broadcast_cons, IH.
Qed.

(** X11: once the close listener of [h] has run, a publish on [C] hands [h]
    nothing, and every other socket gets what it would have got before. *)
Theorem publish_after_close (w : World) (C : string) (h : ws) (m : jsval) :
  deliveries_to h (sent_by (post_send C m) (run (ws_on_close C h) w)) = 0%nat
  ∧ (∀ h', h' ≠ h →
       deliveries_to h' (sent_by (post_send C m) (run (ws_on_close C h) w))
       = deliveries_to h' (sent_by (post_send C m) w)).
Proof.
  rewrite !sent_by_post_send. destruct (truthy m); [|done].
  rewrite handles_ws_on_close.
  assert (Hb : ∀ s, broadcast (run (ws_on_close C h) w) C m s = broadcast w C m s).
  { intros s. unfold broadcast. by destruct (ws_on_close_rest w C h) as (-> & _). }
  rewrite Hb. split.
  - apply deliveries_to_broadcast_notin. rewrite Set_delete_elem. tauto.
  - intros h' Hne. by apply deliveries_to_broadcast_delete.
Qed.

Lemma handles_wss_on_connection (w : World) (sock : ws) (url C : string) :
  handles (run (wss_on_connection sock url) w) C
  = if bool_decide (C = substring_from 1 url ∧ C ≠ "")
    then Set_add sock (handles w C) else handles w C.
Proof.
  unfold run. destruct (decide (substring_from 1 url = "")) as [Hu|Hu].
  - rewrite (wss_on_connection_reject sock url w Hu).
    rewrite bool_decide_eq_false_2; [done|]. intros [-> ?]. done.
  - rewrite (wss_on_connection_admit sock url w Hu). unfold handles at 1. cbn.
    destruct (decide (C = substring_from 1 url)) as [->|Hne].
    + rewrite lookup_insert_eq. cbn. by rewrite bool_decide_eq_true_2.
    + rewrite lookup_insert_ne by done.
      rewrite bool_decide_eq_false_2; [done|]. tauto.
Qed.

(** X12: a connection never takes a socket out of a set: every member of every
    channel stays, in its place; the only new member is the connecting socket,
    in the channel of its request target, after the members that were there. *)
Theorem wss_on_connection_only_adds (w : World) (sock : ws) (url : string) :
  (∀ C h, h ∈ handles w C → h ∈ handles (run (wss_on_connection sock url) w) C)
  ∧ (∀ C h, h ∈ handles (run (wss_on_connection sock url) w) C →
       h ∈ handles w C ∨ (h = sock ∧ C = substring_from 1 url ∧ C ≠ ""))
  ∧ (∀ C, C ≠ substring_from 1 url →
       handles (run (wss_on_connection sock url) w) C = handles w C)
  ∧ (substring_from 1 url ≠ "" → sock ∉ handles w (substring_from 1 url) →
       handles (run (wss_on_connection sock url) w) (substring_from 1 url)
       = handles w (substring_from 1 url) ++ [sock]).
Proof.
  split; [|split; [|split]].
  - intros C h Hin. rewrite handles_wss_on_connection. case_bool_decide; [|done].
    apply Set_add_elem_of. by left.
  - intros C h. rewrite handles_wss_on_connection. case_bool_decide as Hd; [|by left].
    rewrite Set_add_elem_of. intros [?| ->]; [by left|]. right. tauto.
  - intros C Hne. rewrite handles_wss_on_connection.
    rewrite bool_decide_eq_false_2; [done|]. tauto.
  - intros Hu Hn. rewrite handles_wss_on_connection.
    rewrite bool_decide_eq_true_2 by done. by apply Set_add_fresh.
Qed.

Lemma sets_wf_handles (w : World) (C : string) : sets_wf w → NoDup (handles w C).
Proof.
  intros H. unfold handles. destruct (channels w !! C) as [s|] eqn:Hc; cbn.
  - by apply (H C).
  - apply NoDup_nil_2.
Qed.

(** X13: a socket that connects with a channel in its request target and is
    open gets exactly one frame from the next publish on that channel. *)
Theorem publish_after_connection (w : World) (sock : ws) (url : string) (m : jsval) :
  sets_wf w → substring_from 1 url ≠ "" →
  readyState w sock = OPEN → truthy m = true →
  deliveries_to sock
    (sent_by (post_send (substring_from 1 url) m) (run (wss_on_connection sock url) w))
  = 1%nat.
Proof.
  intros Hwf Hu Hopen Ht. rewrite sent_by_post_send, Ht.
  rewrite handles_wss_on_connection. rewrite bool_decide_eq_true_2 by done.
  apply deliveries_to_broadcast_once.
  - by apply Set_add_NoDup, sets_wf_handles.
  - apply Set_add_has.
  - unfold run. by rewrite (wss_on_connection_admit sock url w Hu).
Qed.

Lemma publish_after_connection_witness :
  sets_wf w_one ∧ substring_from 1 "/room1" ≠ ""
  ∧ deliveries_to 2%nat
      (sent_by (post_send (substring_from 1 "/room1") (JStr "hello"))
         (run (wss_on_connection 2%nat "/room1") w_one))
    = 1%nat.
Proof.
  assert (Hu : substring_from 1 "/room1" ≠ "") by done.
  split; [exact sets_wf_w_one|]. split; [exact Hu|].
  exact (publish_after_connection w_one 2%nat "/room1" (JStr "hello")
           sets_wf_w_one Hu eq_refl eq_refl).
Defined.

(** ** Invariants of the event loop *)

Lemma run_forEach_cons {A} (x : A) (l : list A) (f : A → M unit) (w : World) :
  run (forEach (x :: l) f) w = run (forEach l f) (run (f x) w).
Proof. unfold run. cbn [forEach]. unfold bind. by destruct (f x w) as [[] w']. Qed.

Lemma run_emit_close (sock : ws) (w : World) :
  run (emit_close sock) w
  = run (forEach (filter (λ p, p.1 = sock) (listeners w))
                 (fun p => ws_on_close p.2 sock))
        (run (set_readyState sock CLOSED) w).
Proof. reflexivity. Qed.

Lemma run_exec_cons (e : event) (es : list event) (w : World) :
  run (exec (e :: es)) w = run (exec es) (run (handle e) w).
Proof. unfold run. cbn [exec]. unfold bind. by destruct (handle e w) as [[] w']. Qed.

Lemma reachable_initial : reachable initial.
Proof. by exists []. Qed.

Lemma reachable_step (e : event) (w : World) : reachable w → reachable (run (handle e) w).
Proof.
  intros [es <-]. exists (es ++ [e]). clear. generalize initial.
  induction es as [|e' es IH]; intros w.
  - cbn [app]. by rewrite run_exec_cons.
  - cbn [app]. rewrite !run_exec_cons. apply IH.
Qed.

Section Invariant.
(** A property of the world kept by the three handlers and by a change of a
    socket's state holds in every world the server reaches. *)
Variable P : World → Prop.
Hypothesis P_connection : ∀ sock url w, P w → P (run (wss_on_connection sock url) w).
Hypothesis P_post : ∀ C m w, P w → P (run (post_send C m) w).
Hypothesis P_state : ∀ sock rs w, P w → P (run (set_readyState sock rs) w).
Hypothesis P_close : ∀ C h w, P w → P (run (ws_on_close C h) w).

Lemma invariant_forEach_close (sock : ws) (ls : list (ws * string)) (w : World) :
  P w → P (run (forEach ls (fun p => ws_on_close p.2 sock)) w).
Proof.
  revert w. induction ls as [|p ls IH]; intros w H; [done|].
  rewrite run_forEach_cons. by apply IH, P_close.
Qed.

Lemma invariant_handle (e : event) (w : World) : P w → P (run (handle e) w).
Proof.
  intros H. destruct e as [sock url|C m|sock rs|sock].
  - by apply P_connection.
  - pose proof (P_post C m w H) as H1. unfold run, handle, bind in *.
    by destruct (post_send C m w).
  - by apply P_state.
  - change (handle (CloseEvent sock)) with (emit_close sock).
    rewrite run_emit_close. by apply invariant_forEach_close, P_state.
Qed.

Lemma invariant_reachable (w : World) : P initial → reachable w → P w.
Proof.
  intros H0 [es <-]. revert H0. generalize initial.
  induction es as [|e es IH]; intros w H; [done|].
  rewrite run_exec_cons. by apply IH, invariant_handle.
Qed.
End Invariant.

(** X14: in every world the server reaches, the registry satisfies its two
    invariants: a channel has an entry exactly when it has a subscriber, and
    no socket is twice in a set. *)
Theorem reachable_registry_well_formed (w : World) :
  reachable w → registry_inv w ∧ sets_wf w.
Proof.
  intros H. split; [by apply reachable_registry_inv | by apply reachable_sets_wf].
Qed.

Lemma reachable_registry_well_formed_witness :
  registry_inv (run (exec [Connection 1%nat "/room1"; Connection 2%nat "/room1";
                           CloseEvent 1%nat]) initial)
  ∧ sets_wf (run (exec [Connection 1%nat "/room1"; Connection 2%nat "/room1";
                         CloseEvent 1%nat]) initial).
Proof.
  apply reachable_registry_well_formed.
  by exists [Connection 1%nat "/room1"; Connection 2%nat "/room1"; CloseEvent 1%nat].
Defined.

(** X15: the empty channel name never gets an entry. *)
Theorem reachable_no_empty_channel (w : World) :
  reachable w → channels w !! "" = None.
Proof.
  apply (invariant_reachable (λ w, channels w !! "" = None)); [| | | |done].
  - intros sock url w0 H. unfold run.
    destruct (decide (substring_from 1 url = "")) as [Hu|Hu].
    + by rewrite (wss_on_connection_reject sock url w0 Hu).
    + rewrite (wss_on_connection_admit sock url w0 Hu). cbn.
      by rewrite lookup_insert_ne.
  - intros C m w0 H. by destruct (post_send_frame C m w0) as [-> _].
  - done.
  - intros C h w0 H. destruct (decide (C = "")) as [->|Hne].
    + unfold run. by rewrite (ws_on_close_absent "" h w0 H).
    + by rewrite ws_on_close_other.
Qed.

Lemma reachable_no_empty_channel_witness :
  channels (run (exec [Connection 1%nat "/"; Connection 2%nat "/room1"]) initial)
    !! "" = None.
Proof.
  apply reachable_no_empty_channel.
  by exists [Connection 1%nat "/"; Connection 2%nat "/room1"].
Defined.

Lemma member_listens_invariant (w : World) :
  reachable w → ∀ C h, h ∈ handles w C → (h, C) ∈ listeners w.
Proof.
  apply (invariant_reachable (λ w, ∀ C h, h ∈ handles w C → (h, C) ∈ listeners w)).
  - intros sock url w0 H C h. rewrite handles_wss_on_connection.
    unfold run. destruct (decide (substring_from 1 url = "")) as [Hu|Hu].
    + rewrite (wss_on_connection_reject sock url w0 Hu). cbn.
      rewrite bool_decide_eq_false_2; [apply H|]. intros [-> ?]. done.
    + rewrite (wss_on_connection_admit sock url w0 Hu). cbn.
      case_bool_decide as Hd.
      * destruct Hd as [-> _]. rewrite Set_add_elem_of, elem_of_app.
        intros [Hin| ->]; [left; by apply H | right; by left].
      * intros Hin. rewrite elem_of_app. left. by apply H.
  - intros C m w0 H C' h. rewrite handles_post_send.
    destruct (post_send_frame C m w0) as (_ & _ & ->). apply H.
  - intros sock rs w0 H. exact H.
  - intros C h w0 H C' h'. destruct (ws_on_close_rest w0 C h) as (_ & -> & _).
    destruct (decide (C' = C)) as [->|Hne].
    + rewrite handles_ws_on_close, Set_delete_elem. intros [Hin _]. by apply H.
    + unfold handles at 1. rewrite ws_on_close_other by done. apply H.
  - intros C h Hin. unfold handles in Hin. cbn in Hin. rewrite lookup_empty in Hin.
    by apply not_elem_of_nil in Hin.
Qed.

(** X16: every socket in a channel's set has a close listener registered for
    that channel, so its close will reach the set it is in. *)
Theorem reachable_member_listens (w : World) (C : string) (h : ws) :
  reachable w → h ∈ handles w C → (h, C) ∈ listeners w.
Proof. intros H. by apply member_listens_invariant. Qed.

Lemma reachable_member_listens_witness :
  (1%nat, "room1") ∈ listeners (run (exec [Connection 1%nat "/room1"]) initial).
Proof.
  apply reachable_member_listens.
  - by exists [Connection 1%nat "/room1"].
  - vm_compute. left.
Defined.

Lemma forEach_close_handles (h : ws) (ls : list (ws * string)) (w : World) (C : string) :
  h ∈ handles (run (forEach ls (fun p => ws_on_close p.2 h)) w) C →
  h ∈ handles w C ∧ C ∉ ls.*2.
Proof.
  revert w. induction ls as [|p ls IH]; intros w Hin.
  - split; [exact Hin | apply not_elem_of_nil].
  - rewrite run_forEach_cons in Hin. apply IH in Hin as [Hin Hls].
    destruct (decide (C = p.2)) as [->|Hne].
    + by apply ws_on_close_removes in Hin.
    + split.
      * unfold handles in *. by rewrite ws_on_close_other in Hin.
      * rewrite fmap_cons, not_elem_of_cons. done.
Qed.

Lemma emit_close_clears (w : World) (h : ws) (C : string) :
  reachable w → h ∉ handles (run (emit_close h) w) C.
Proof.
  intros Hr Hin. rewrite run_emit_close in Hin.
  apply forEach_close_handles in Hin as [Hin Hls].
  apply Hls. apply (member_listens_invariant w Hr) in Hin.
  apply list_elem_of_fmap. exists (h, C). split; [done|].
  by apply list_elem_of_filter.
Qed.

(** X17: when ['close'] is emitted on a socket, its listeners take it out of
    every set it is in: after the event the socket is in no channel's set, and
    no publish hands it a frame. *)
Theorem close_event_unsubscribes (w : World) (h : ws) :
  reachable w →
  (∀ C, h ∉ handles (run (handle (CloseEvent h)) w) C)
  ∧ (∀ C m, deliveries_to h
              (sent_by (post_send C m) (run (handle (CloseEvent h)) w)) = 0%nat).
Proof.
  intros Hr. split.
  - intros C. by apply emit_close_clears.
  - intros C m. rewrite sent_by_post_send. destruct (truthy m); [|done].
    apply deliveries_to_broadcast_notin. by apply emit_close_clears.
Qed.

Lemma close_event_unsubscribes_witness :
  handles (run (exec [Connection 1%nat "/room1"; Connection 1%nat "/room2"]) initial)
    "room2" = [1%nat]
  ∧ (1%nat ∉ handles (run (handle (CloseEvent 1%nat))
                        (run (exec [Connection 1%nat "/room1";
                                    Connection 1%nat "/room2"]) initial)) "room1")
  ∧ (1%nat ∉ handles (run (handle (CloseEvent 1%nat))
                        (run (exec [Connection 1%nat "/room1";
                                    Connection 1%nat "/room2"]) initial)) "room2").
Proof.
  assert (Hr : reachable (run (exec [Connection 1%nat "/room1";
                                     Connection 1%nat "/room2"]) initial))
    by (by exists [Connection 1%nat "/room1"; Connection 1%nat "/room2"]).
  split; [by vm_compute|].
  split; apply (proj1 (close_event_unsubscribes _ 1%nat Hr)).
Defined.

(** X18: everything the server ever does to a socket is one of two things: it
    sends the envelope of a message that is not falsy, or it closes the socket
    with code 1008 and the reason [Channel required in URL]. *)
Theorem reachable_trace_shape (w : World) (e : effect) :
  reachable w → e ∈ trace w →
  (∃ h C m, e = Send h (envelope C m) ∧ truthy m = true)
  ∨ (∃ h, e = WsClose h 1008%Z "Channel required in URL").
Proof.
  intros Hr. revert e.
  apply (invariant_reachable
           (λ w, ∀ e, e ∈ trace w →
              (∃ h C m, e = Send h (envelope C m) ∧ truthy m = true)
              ∨ (∃ h, e = WsClose h 1008%Z "Channel required in URL")));
    [| | | | |exact Hr].
  - intros sock url w0 H e. unfold run.
    destruct (decide (substring_from 1 url = "")) as [Hu|Hu].
    + rewrite (wss_on_connection_reject sock url w0 Hu). cbn.
      rewrite elem_of_app, list_elem_of_singleton.
      intros [He| ->]; [by apply H | right; by exists sock].
    + rewrite (wss_on_connection_admit sock url w0 Hu). apply H.
  - intros C m w0 H e. rewrite trace_post_send, elem_of_app, sent_by_post_send.
    intros [He|He]; [by apply H|].
    destruct (truthy m) eqn:Ht; [|by apply not_elem_of_nil in He].
    apply elem_of_broadcast_inv in He as (h & -> & _). left. by exists h, C, m.
  - intros sock rs w0 H. exact H.
  - intros C h w0 H e. destruct (ws_on_close_rest w0 C h) as (_ & _ & ->). apply H.
  - intros e He. by apply not_elem_of_nil in He.
Qed.

Lemma reachable_trace_shape_witness :
  (∃ h C m, Send 1%nat (envelope "room1" (JStr "hello")) = Send h (envelope C m)
            ∧ truthy m = true)
  ∨ (∃ h, Send 1%nat (envelope "room1" (JStr "hello"))
          = WsClose h 1008%Z "Channel required in URL").
Proof.
  apply (reachable_trace_shape
           (run (exec [Connection 1%nat "/room1"; SocketState 1%nat OPEN;
                       Post "room1" (JStr "hello")]) initial)).
  - by exists [Connection 1%nat "/room1"; SocketState 1%nat OPEN;
               Post "room1" (JStr "hello")].
  - vm_compute. left.
Defined.

(** ** The server of the test file against [server.js] *)

Lemma forEach_send_all (C : string) (m : jsval) (s : list ws) (w : World) :
  forEach s (fun client => ws_send client (envelope C m)) w
  = (tt, mkWorld (channels w) (readyState w) (listeners w)
                 (trace w ++ ((λ h, Send h (envelope C m)) <$> s))).
Proof.
  revert w. induction s as [|h s IH]; intros w.
  - cbn. unfold ret. rewrite app_nil_r. by destruct w.
  - cbn [forEach]. unfold bind at 1. unfold ws_send at 1, emit. rewrite IH. cbn.
    by rewrite <- app_assoc.
Qed.

Lemma mock_post_send_eq (w : World) (C : string) (m : jsval) :
  mock_post_send C m w
  = if truthy m
    then (mkResponse 200%Z [("status", JStr "Message sent")],
          mkWorld (channels w) (readyState w) (listeners w)
                  (trace w ++ ((λ h, Send h (envelope C m)) <$> handles w C)))
    else (mkResponse 400%Z [("error", JStr "Missing message")], w).
Proof.
  unfold mock_post_send, handles. destruct (truthy m); [|done]. cbn [negb].
  unfold bind at 1. unfold channels_has. destruct (channels w !! C) as [s|] eqn:Hc.
  - rewrite bool_decide_eq_true_2 by eauto. unfold bind at 1. unfold bind at 1.
    unfold channels_get. rewrite Hc. cbn [default]. by rewrite forEach_send_all.
  - rewrite bool_decide_eq_false_2 by (by intros [? ?]). unfold bind, ret. cbn.
    rewrite app_nil_r. by destruct w.
Qed.

Lemma filter_all_open (w : World) (s : list ws) :
  (∀ h, h ∈ s → readyState w h = OPEN) →
  filter (λ h, readyState w h = OPEN) s = s.
Proof.
  induction s as [|x s IH]; intros H; [done|].
  rewrite filter_cons_True by (apply H; left).
  rewrite IH; [done|]. intros h Hh. apply H. by right.
Qed.

(** X19: when every subscriber of the channel is open, the handler of the
    test's server and the handler of [server.js] leave the same world: the
    same frames in the same order, the registry untouched. *)
Theorem mock_post_send_agrees (w : World) (C : string) (m : jsval) :
  (∀ h, h ∈ handles w C → readyState w h = OPEN) →
  run (mock_post_send C m) w = run (post_send C m) w
  ∧ status (result (mock_post_send C m) w) = status (result (post_send C m) w).
Proof.
  intros Hopen. destruct (post_send_status w C m) as [Hs Hw].
  unfold run, result in *. rewrite mock_post_send_eq.
  destruct (truthy m) eqn:Ht.
  - split; [|by rewrite Hs]. cbn [snd].
    pose proof (trace_post_send w C m) as Htr. rewrite sent_by_post_send, Ht in Htr.
    unfold broadcast in Htr. rewrite (filter_all_open w _ Hopen) in Htr.
    destruct (post_send_frame C m w) as (Hc & Hr & Hl). unfold run in *.
    destruct (post_send C m w) as [r [cs rs ls tr]]. cbn in *. by subst.
  - rewrite (Hw eq_refl). cbn. split; [done | by rewrite Hs].
Qed.

Lemma mock_post_send_agrees_witness :
  run (mock_post_send "room1" (JStr "hello")) w_two_open
  = run (post_send "room1" (JStr "hello")) w_two_open
  ∧ status (result (mock_post_send "room1" (JStr "hello")) w_two_open)
    = status (result (post_send "room1" (JStr "hello")) w_two_open).
Proof. by apply mock_post_send_agrees. Defined.

(** X20: for a channel without entry the two servers answer 200 with different
    bodies: the test's server says [Message sent], [server.js] says
    [No subscribers, but message accepted]. *)
Theorem mock_post_send_answer_differs (w : World) (C : string) (m : jsval) :
  channels w !! C = None → truthy m = true →
  result (mock_post_send C m) w
  = mkResponse 200%Z [("status", JStr "Message sent")]
  ∧ result (post_send C m) w
    = mkResponse 200%Z [("status", JStr "No subscribers, but message accepted")].
Proof.
  intros Hc Ht. unfold result. rewrite mock_post_send_eq, Ht.
  by rewrite (post_send_absent C m w Ht Hc).
Qed.

Lemma mock_post_send_answer_differs_witness :
  result (mock_post_send "testchannel" (JStr "hello")) initial
  = mkResponse 200%Z [("status", JStr "Message sent")]
  ∧ result (post_send "testchannel" (JStr "hello")) initial
    = mkResponse 200%Z [("status", JStr "No subscribers, but message accepted")].
Proof.
  apply mock_post_send_answer_differs; [apply lookup_empty | reflexivity].
Defined.

(** X21: the close listener of the test's server does what the listener of
    [server.js] does when the channel has an entry, and throws when it has
    none, where the listener of [server.js] returns without a change. *)
Theorem mock_ws_on_close_vs_server (w : World) (C : string) (h : ws) :
  (channels w !! C = None →
     mock_ws_on_close C h w = None ∧ ws_on_close C h w = (tt, w))
  ∧ (is_Some (channels w !! C) →
     mock_ws_on_close C h w = Some (run (ws_on_close C h) w)).
Proof.
  split.
  - intros Hc. split; [|by apply ws_on_close_absent].
    unfold mock_ws_on_close. by rewrite Hc.
  - intros [s Hc]. unfold mock_ws_on_close. rewrite Hc.
    unfold run at 1 2 3, channels_set. cbn [snd channels]. rewrite lookup_insert_eq.
    unfold run. destruct (decide (Set_delete h s = [])) as [Hd|Hd].
    + rewrite (ws_on_close_prune C h w s Hc Hd). rewrite Hd. cbn.
      by rewrite delete_insert_eq.
    + rewrite (ws_on_close_keep C h w s Hc Hd).
      rewrite bool_decide_eq_false_2; [done|].
      unfold Set_size. intros Hl. by apply nil_length_inv in Hl.
Qed.

(** X22: the middleware of the test's server lets through the one header
    [Bearer test-secret], which the middleware of [server.js] with the same
    secret lets through too; a header with more after the secret passes
    [server.js] and is answered 401 by the test's server. *)
Theorem mock_authMiddleware_stricter (authorization : option string) (tail : string) :
  (mock_authMiddleware authorization = Next ↔ authorization = Some "Bearer test-secret")
  ∧ (mock_authMiddleware authorization = Next →
     authMiddleware "test-secret" authorization = Next)
  ∧ authMiddleware "test-secret" (Some ("Bearer test-secret " +:+ tail)) = Next
  ∧ mock_authMiddleware (Some ("Bearer test-secret " +:+ tail))
    = Respond (mkResponse 401%Z [("error", JStr "Unauthorized")]).
Proof.
  assert (Hm : mock_authMiddleware authorization = Next
               ↔ authorization = Some "Bearer test-secret").
  { unfold mock_authMiddleware. destruct authorization as [a|]; [|done].
    destruct (String.eqb a "Bearer test-secret") eqn:E.
    - apply String.eqb_eq in E as ->. done.
    - apply String.eqb_neq in E. rewrite orb_true_r. split; [done|]. congruence. }
  split; [exact Hm|]. split; [|split].
  - intros H. apply Hm in H as ->. reflexivity.
  - change ("Bearer test-secret " +:+ tail)
      with ("Bearer " +:+ "test-secret" +:+ String " " tail).
    rewrite authMiddleware_Bearer. rewrite split_on_piece by done.
    by rewrite bool_decide_eq_true_2.
  - reflexivity.
Qed.

(** ** Subscribing twice; subscribing and unsubscribing *)

Lemma handles_subscribe (w : World) (C C' : string) (h : ws) :
  handles (run (subscribe C h) w) C'
  = if bool_decide (C' = C ∧ C' ≠ "") then Set_add h (handles w C')
    else handles w C'.
Proof.
  unfold subscribe. rewrite handles_wss_on_connection.
  by rewrite substring_from_1_slash.
Qed.

Lemma sets_wf_subscribe (w : World) (C : string) (h : ws) :
  sets_wf w → sets_wf (run (subscribe C h) w).
Proof. apply sets_wf_wss_on_connection. Qed.

(** C6: [subscribe(C, h)] puts [h] in [C]'s set, and subscribing a handle
    that is already in the set changes nothing in the registry; so after two
    subscribes of [h] to [C] the registry is as after one, [h] is in the set
    once, and a publish on [C] hands [h] exactly one frame. *)
Theorem C6_subscribe_idempotent (w : World) (C : string) (h : ws) :
  sets_wf w → C ≠ "" →
  h ∈ handles (run (subscribe C h) w) C
  ∧ (h ∈ handles w C → channels (run (subscribe C h) w) = channels w)
  ∧ channels (run (subscribe C h) (run (subscribe C h) w))
    = channels (run (subscribe C h) w)
  ∧ (∀ m, truthy m = true → readyState w h = OPEN →
       deliveries_to h
         (sent_by (publish C m) (run (subscribe C h) (run (subscribe C h) w)))
       = 1%nat).
Proof.
  intros Hwf HC.
  assert (Hin : h ∈ handles (run (subscribe C h) w) C).
  { rewrite handles_subscribe. rewrite bool_decide_eq_true_2 by done.
    apply Set_add_has. }
  pose proof (subscribe_member _ C h Hin) as Hch.
  split; [exact Hin|]. split; [apply subscribe_member|]. split; [exact Hch|].
  intros m Ht Hopen. unfold publish. rewrite sent_by_post_send, Ht.
  apply deliveries_to_broadcast_once.
  - by apply sets_wf_handles, sets_wf_subscribe, sets_wf_subscribe.
  - unfold handles. rewrite Hch. exact Hin.
  - by rewrite !subscribe_readyState.
Qed.

Lemma C6_subscribe_idempotent_witness :
  sets_wf w_one ∧ "room1" ≠ ""
  ∧ handles (run (subscribe "room1" 2%nat) (run (subscribe "room1" 2%nat) w_one))
      "room1" = [1%nat; 2%nat]
  ∧ deliveries_to 2%nat
      (sent_by (publish "room1" (JStr "hello"))
         (run (subscribe "room1" 2%nat) (run (subscribe "room1" 2%nat) w_one)))
    = 1%nat.
Proof.
  assert (HC : "room1" ≠ "") by done.
  split; [exact sets_wf_w_one|]. split; [exact HC|]. split; [by vm_compute|].
  pose proof (C6_subscribe_idempotent w_one "room1" 2%nat sets_wf_w_one HC)
    as (_ & _ & _ & H).
  apply H; reflexivity.
Defined.

Lemma forEach_subscribe_handles (C : string) (hs : list ws) (w : World) (x : ws) :
  x ∈ handles (run (forEach hs (subscribe C)) w) C → x ∈ handles w C ∨ x ∈ hs.
Proof.
  revert w. induction hs as [|h hs IH]; intros w Hx; [by left|].
  rewrite run_forEach_cons in Hx. apply IH in Hx as [Hx|Hx]; [|right; by right].
  rewrite handles_subscribe in Hx. case_bool_decide; [|by left].
  apply Set_add_elem_of in Hx as [Hx| ->]; [by left | right; left].
Qed.

Lemma forEach_subscribe_keeps (C C' : string) (hs : list ws) (w : World) (x : ws) :
  x ∈ handles w C' → x ∈ handles (run (forEach hs (subscribe C)) w) C'.
Proof.
  revert w. induction hs as [|h hs IH]; intros w Hx; [done|].
  rewrite run_forEach_cons. apply IH. rewrite handles_subscribe.
  case_bool_decide; [|done]. apply Set_add_elem_of. by left.
Qed.

Lemma forEach_subscribe_members (C : string) (hs : list ws) (w : World) (x : ws) :
  C ≠ "" → x ∈ hs → x ∈ handles (run (forEach hs (subscribe C)) w) C.
Proof.
  intros HC. revert w. induction hs as [|h hs IH]; intros w Hx.
  - by apply not_elem_of_nil in Hx.
  - rewrite run_forEach_cons. apply elem_of_cons in Hx as [->|Hx]; [|by apply IH].
    apply forEach_subscribe_keeps. rewrite handles_subscribe.
    rewrite bool_decide_eq_true_2 by done. apply Set_add_has.
Qed.

(** The close listener never leaves an empty set behind. *)
Lemma ws_on_close_no_dangling (w : World) (C : string) (h : ws) :
  channels (run (ws_on_close C h) w) !! C ≠ Some [].
Proof.
  unfold run. destruct (channels w !! C) as [s|] eqn:Hc.
  - destruct (decide (Set_delete h s = [])) as [Hd|Hd].
    + rewrite (ws_on_close_prune C h w s Hc Hd). cbn. by rewrite lookup_delete_eq.
    + rewrite (ws_on_close_keep C h w s Hc Hd). cbn. rewrite lookup_insert_eq.
      congruence.
  - rewrite (ws_on_close_absent C h w Hc). cbn. by rewrite Hc.
Qed.

(** Once the close listener has run for every member of [C]'s set, [C] has
    no entry. *)
Lemma forEach_unsubscribe_absent (C : string) (hs : list ws) (w : World) :
  (∀ x, x ∈ handles w C → x ∈ hs) →
  (hs = [] → channels w !! C ≠ Some []) →
  channels (run (forEach hs (unsubscribe C)) w) !! C = None.
Proof.
  revert w. induction hs as [|h hs IH]; intros w Hcover Hd.
  - unfold handles in Hcover. change (run (forEach [] (unsubscribe C)) w) with w.
    destruct (channels w !! C) as [s|] eqn:Hc; [|done].
    destruct s as [|x s]; [by destruct (Hd eq_refl)|].
    cbn in Hcover. by destruct (not_elem_of_nil x (Hcover x ltac:(left))).
  - rewrite run_forEach_cons. apply IH.
    + intros x. unfold unsubscribe. rewrite handles_ws_on_close, Set_delete_elem.
      intros [Hx Hne]. apply Hcover in Hx.
      apply elem_of_cons in Hx as [->|Hx]; done.
    + intros _. apply ws_on_close_no_dangling.
Qed.

(** C7: for every channel [C] and every set of handles [h :: hs] that holds
    the subscribers [C] has, after [subscribe(C, x)] for each [x] of the set
    (which puts each of them in [C]'s set, for a channel name that is not
    empty) and then [unsubscribe(C, x)] for each of them, [C] has no entry in
    the registry: the close that empties the set prunes the entry.  With the
    one handle [h] this is [subscribe(C, h)] followed by
    [unsubscribe(C, h)]. *)
Theorem C7_subscribe_then_unsubscribe (w : World) (C : string) (h : ws) (hs : list ws) :
  (∀ x, x ∈ handles w C → x ∈ h :: hs) →
  (C ≠ "" → ∀ x, x ∈ h :: hs →
     x ∈ handles (run (forEach (h :: hs) (subscribe C)) w) C)
  ∧ channels (run (forEach (h :: hs) (unsubscribe C))
                (run (forEach (h :: hs) (subscribe C)) w)) !! C = None
  ∧ (hs = [] →
     (C ≠ "" → h ∈ handles (run (subscribe C h) w) C)
     ∧ channels (run (unsubscribe C h) (run (subscribe C h) w)) !! C = None).
Proof.
  intros Hcover. split; [|split].
  - intros HC x Hx. by apply forEach_subscribe_members.
  - apply forEach_unsubscribe_absent; [|done].
    intros x Hx. apply forEach_subscribe_handles in Hx as [Hx|Hx]; [|done].
    by apply Hcover.
  - intros ->. split.
    + intros HC. rewrite handles_subscribe. rewrite bool_decide_eq_true_2 by done.
      apply Set_add_has.
    + apply subscribe_unsubscribe_single. intros x Hx.
      apply Hcover in Hx. by apply list_elem_of_singleton in Hx.
Qed.

Lemma C7_subscribe_then_unsubscribe_witness :
  handles (run (forEach [1%nat; 2%nat] (subscribe "room1")) w_one) "room1"
  = [1%nat; 2%nat]
  ∧ channels (run (forEach [1%nat; 2%nat] (unsubscribe "room1"))
                (run (forEach [1%nat; 2%nat] (subscribe "room1")) w_one))
      !! "room1" = None
  ∧ channels (run (unsubscribe "room1" 1%nat) (run (subscribe "room1" 1%nat) initial))
      !! "room1" = None.
Proof.
  assert (H1 : ∀ x, x ∈ handles w_one "room1" → x ∈ [1%nat; 2%nat]).
  { intros x Hx. unfold handles in Hx. cbn in Hx. rewrite lookup_singleton_eq in Hx.
    cbn in Hx. apply list_elem_of_singleton in Hx as ->. left. }
  assert (H0 : ∀ x, x ∈ handles initial "room1" → x ∈ [1%nat]).
  { intros x Hx. unfold handles in Hx. cbn in Hx. rewrite lookup_empty in Hx.
    by apply not_elem_of_nil in Hx. }
  split; [by vm_compute|]. split.
  - exact (proj1 (proj2 (C7_subscribe_then_unsubscribe w_one "room1" 1%nat [2%nat] H1))).
  - exact (proj2 (proj2 (proj2 (C7_subscribe_then_unsubscribe initial "room1" 1%nat
                                  [] H0)) eq_refl)).
Defined.
